(** * Mission Control: the tail / extract / broadcast / replay pipeline

    A shallow embedding of the event pipeline of [server.js]:
    [broadcastEvent], [startEventTail], [broadcastA2AEvent],
    [processSessionLine], [tailSessionFile], [pollSessionStores] and the
    WebSocket ['connection'] handler, followed by the properties the
    design document states about them.  Further on: the agent
    communications API ([GET] and [POST /api/agent-comms]), the document
    names ([resolveDocumentPathOrNull] and the upload file name) and the
    core agent ids of [config.js], with properties of their own. *)

From Stdlib Require Import PrimFloat Ascii String.
From stdpp Require Import gmap strings list pretty.

Set Warnings "-register-all".
Open Scope string_scope.
Open Scope list_scope.
Open Scope nat_scope.

(** ** JavaScript values

    What [JSON.parse] returns, plus [undefined].  Numbers are IEEE doubles,
    as in JavaScript.  A parsed object is its list of own properties in
    enumeration order (keys are distinct after parsing).  The characters of
    a [string] stand for the code units of a JavaScript string. *)

Inductive value : Type :=
| VUndef
| VNull
| VBool (b : bool)
| VNum (x : float)
| VStr (s : string)
| VArr (items : list value)
| VObj (fields : list (string * value)).

(** ToBoolean: [undefined], [null], [false], [0], [-0], [NaN] and [''] are
    falsy. *)
Definition truthy (v : value) : bool :=
  match v with
  | VUndef | VNull => false
  | VBool b => b
  | VNum x => negb (PrimFloat.eqb x 0) && PrimFloat.eqb x x
  | VStr s => negb (String.eqb s "")
  | VArr _ | VObj _ => true
  end.

(** [a || b] *)
Definition orElse (a b : value) : value := if truthy a then a else b.

(** [a === b].  Arrays and objects compare by reference; the two sides of
    every comparison of the pipeline come from different [JSON.parse] calls
    (or one side is a literal), so they never share a reference. *)
Definition strictEq (a b : value) : bool :=
  match a, b with
  | VUndef, VUndef | VNull, VNull => true
  | VBool x, VBool y => Bool.eqb x y
  | VNum x, VNum y => PrimFloat.eqb x y
  | VStr x, VStr y => String.eqb x y
  | _, _ => false
  end.

Definition isStr (v : value) (s : string) : bool := strictEq v (VStr s).

Fixpoint assoc (k : string) (l : list (string * value)) : value :=
  match l with
  | [] => VUndef
  | (k', v) :: r => if String.eqb k k' then v else assoc k r
  end.

(** [v.k] on a receiver that is neither [null] nor [undefined].  None of
    the property names the pipeline reads exists on a prototype, so a
    primitive or an array answers [undefined]. *)
Definition prop (v : value) (k : string) : value :=
  match v with
  | VObj l => assoc k l
  | _ => VUndef
  end.

Definition defined (v : value) : bool :=
  match v with VUndef => false | _ => true end.

(** An object literal as [JSON.stringify] shows it: a property whose value
    is [undefined] is not serialised, and reading it back gives [undefined]
    either way. *)
Definition object (l : list (string * value)) : value :=
  VObj (List.filter (fun kv => defined kv.2) l).

(** [a.slice(-n)] on an array. *)
Definition sliceLast {A} (n : nat) (l : list A) : list A :=
  drop (List.length l - n) l.

(** ** Text *)

Definition isNewline (c : ascii) : bool := Ascii.eqb c "010"%char.

(** The white space [String.prototype.trim] strips, within ASCII. *)
Definition isSpace (c : ascii) : bool :=
  match nat_of_ascii c with
  | 9 | 10 | 11 | 12 | 13 | 32 => true
  | _ => false
  end.

(** [s.split('\n')] *)
Fixpoint splitLines (s : string) : list string :=
  match s with
  | EmptyString => [EmptyString]
  | String c r =>
      if isNewline c then EmptyString :: splitLines r
      else match splitLines r with
           | cur :: rest => String c cur :: rest
           | [] => [String c EmptyString]
           end
  end.

(** [l.trim()] is a non-empty string. *)
Fixpoint nonblank (s : string) : bool :=
  match s with
  | EmptyString => false
  | String c r => negb (isSpace c) || nonblank r
  end.

Fixpoint trimStart (s : string) : string :=
  match s with
  | String c r => if isSpace c then trimStart r else s
  | EmptyString => EmptyString
  end.

Fixpoint trimEnd (s : string) : string :=
  match s with
  | String c r => if nonblank s then String c (trimEnd r) else EmptyString
  | EmptyString => EmptyString
  end.

Definition trim (s : string) : string := trimEnd (trimStart s).

(** [buffer.split('\n').filter(l => l.trim())] *)
Definition linesOf (buffer : string) : list string :=
  List.filter nonblank (splitLines buffer).

(** Bytes [start .. size - 1] of a file, what
    [createReadStream(path, {start, end: size - 1})] collects. *)
Definition readRange (start size : nat) (content : string) : string :=
  String.substring start (size - start) content.

(** ** The process state *)

Inductive readyState := CONNECTING | OPEN | CLOSING | CLOSED.

Record client := { cid : nat; ready : readyState }.

(** [agent-comms.json] as [JSON.parse (fs.readFileSync ...)] sees it: the
    file is missing, its text is not JSON, or it parses to a value. *)
Inductive stored := Absent | Garbled | Holds (v : value).

(** What the process does to the outside, in order. *)
Inductive effect :=
| Sent (to : nat) (message : value)
| CommsRead
| CommsWrite (content : value) (ok : bool).

(** A read stream that was created and has not ended yet. *)
Inductive stream :=
| SessionRead (filePath : string) (start size : nat) (agentId : string)
| EventsRead (start size : nat).

Record state := {
  files : gmap string string;
  commsFile : stored;
  commsWritable : bool;
  clients : list client;
  lastEventSize : nat;
  lastSessionUpdates : gmap string (gmap string value);
  sessionFileOffsets : gmap string nat;
  streams : list stream;
  trace : list effect
}.

Definition withCommsFile (c : stored) (s : state) : state :=
  {| files := files s; commsFile := c; commsWritable := commsWritable s;
     clients := clients s; lastEventSize := lastEventSize s;
     lastSessionUpdates := lastSessionUpdates s;
     sessionFileOffsets := sessionFileOffsets s; streams := streams s;
     trace := trace s |}.

Definition withClients (c : list client) (s : state) : state :=
  {| files := files s; commsFile := commsFile s; commsWritable := commsWritable s;
     clients := c; lastEventSize := lastEventSize s;
     lastSessionUpdates := lastSessionUpdates s;
     sessionFileOffsets := sessionFileOffsets s; streams := streams s;
     trace := trace s |}.

Definition withLastEventSize (n : nat) (s : state) : state :=
  {| files := files s; commsFile := commsFile s; commsWritable := commsWritable s;
     clients := clients s; lastEventSize := n;
     lastSessionUpdates := lastSessionUpdates s;
     sessionFileOffsets := sessionFileOffsets s; streams := streams s;
     trace := trace s |}.

Definition withLastSessionUpdates (u : gmap string (gmap string value)) (s : state) : state :=
  {| files := files s; commsFile := commsFile s; commsWritable := commsWritable s;
     clients := clients s; lastEventSize := lastEventSize s;
     lastSessionUpdates := u;
     sessionFileOffsets := sessionFileOffsets s; streams := streams s;
     trace := trace s |}.

Definition withSessionFileOffsets (o : gmap string nat) (s : state) : state :=
  {| files := files s; commsFile := commsFile s; commsWritable := commsWritable s;
     clients := clients s; lastEventSize := lastEventSize s;
     lastSessionUpdates := lastSessionUpdates s;
     sessionFileOffsets := o; streams := streams s;
     trace := trace s |}.

Definition withStreams (p : list stream) (s : state) : state :=
  {| files := files s; commsFile := commsFile s; commsWritable := commsWritable s;
     clients := clients s; lastEventSize := lastEventSize s;
     lastSessionUpdates := lastSessionUpdates s;
     sessionFileOffsets := sessionFileOffsets s; streams := p;
     trace := trace s |}.

Definition withTrace (t : list effect) (s : state) : state :=
  {| files := files s; commsFile := commsFile s; commsWritable := commsWritable s;
     clients := clients s; lastEventSize := lastEventSize s;
     lastSessionUpdates := lastSessionUpdates s;
     sessionFileOffsets := sessionFileOffsets s; streams := streams s;
     trace := t |}.

(** ** Computations: state and exceptions

    A thrown exception keeps every mutation made before it. *)

Inductive outcome (A : Type) := Ok (a : A) | Throw.
Arguments Ok {A} a.
Arguments Throw {A}.

Definition M (A : Type) : Type := state -> outcome A * state.

Definition ret {A} (a : A) : M A := fun s => (Ok a, s).

Definition throw {A} : M A := fun s => (Throw, s).

Definition bind {A B} (c : M A) (k : A -> M B) : M B :=
  fun s => match c s with
           | (Ok a, s') => k a s'
           | (Throw, s') => (Throw, s')
           end.

Notation "'let!' x ':=' c 'in' k" := (bind c (fun x => k))
  (at level 10, x name, c at level 100, k at level 200).
Notation "c '>>' k" := (bind c (fun _ => k))
  (at level 100, k at level 200, right associativity).

(** [try { c } catch {}] *)
Definition try_ (c : M unit) : M unit :=
  fun s => (Ok tt, (c s).2).

(** [try { x = c } catch { x = d }] *)
Definition tryOr {A} (c : M A) (d : A) : M A :=
  fun s => match c s with
           | (Ok a, s') => (Ok a, s')
           | (Throw, s') => (Ok d, s')
           end.

(** [l.forEach(f)] *)
Fixpoint forEach {A} (f : A -> M unit) (l : list A) : M unit :=
  match l with
  | [] => ret tt
  | x :: r => f x >> forEach f r
  end.

(** [v.k]: a [TypeError] when [v] is [null] or [undefined]. *)
Definition get (v : value) (k : string) : M value :=
  match v with
  | VUndef | VNull => throw
  | _ => ret (prop v k)
  end.

Definition log (e : effect) : M unit :=
  fun s => (Ok tt, withTrace (trace s ++ [e]) s).

(** The result and the state of running a computation. *)
Definition result {A} (c : M A) (s : state) : outcome A := (c s).1.
Definition exec {A} (c : M A) (s : state) : state := (c s).2.

(** The messages socket [c] was sent, oldest first. *)
Fixpoint received (c : nat) (t : list effect) : list value :=
  match t with
  | [] => []
  | Sent c' m :: r => if Nat.eqb c c' then m :: received c r else received c r
  | _ :: r => received c r
  end.

(** ** The hub: [broadcastEvent], [broadcastA2AEvent] *)

(** [ws.send(JSON.stringify(message))] *)
Definition send (ws : nat) (message : value) : M unit := log (Sent ws message).

(** [wss.clients.forEach(client => { if (client.readyState === WebSocket.OPEN) client.send(message) })] *)
Definition deliver (message : value) (c : client) : M unit :=
  match ready c with
  | OPEN => send (cid c) message
  | _ => ret tt
  end.

Definition sendToClients (message : value) : M unit :=
  fun s => forEach (deliver message) (clients s) s.

Definition broadcastEvent (event : value) : M unit :=
  sendToClients (object [("type", VStr "antfarm_event"); ("data", event)]).

(** [JSON.parse(fs.readFileSync(agentCommsFile, 'utf-8'))] *)
Definition readComms : M value :=
  log CommsRead >>
  fun s => match commsFile s with
           | Holds v => (Ok v, s)
           | Absent | Garbled => (Throw, s)
           end.

(** [fs.writeFileSync(agentCommsFile, JSON.stringify(comms, null, 2))]: the
    file then parses back to [comms]; a write that fails throws. *)
Definition writeComms (comms : value) : M unit :=
  fun s => if commsWritable s
           then log (CommsWrite comms true) (withCommsFile (Holds comms) s)
           else (log (CommsWrite comms false) >> throw) s.

(** The entry [broadcastA2AEvent] pushes. *)
Definition commsEntry (event : value) : M value :=
  let! ts := get event "ts" in
  ret (object
    [("timestamp", ts);
     ("from", prop event "fromAgent");
     ("to", orElse (prop event "toAgent") VNull);
     ("message", orElse (prop event "task")
                   (orElse (prop event "message")
                      (orElse (prop event "error") (prop event "status"))));
     ("status", orElse (prop event "status") (VStr "sent"));
     ("event", prop event "event");
     ("details", event)]).

(** [comms.push(entry)]: a [TypeError] unless [comms] is an array. *)
Definition push (comms entry : value) : M (list value) :=
  match comms with
  | VArr l => ret (l ++ [entry])
  | _ => throw
  end.

Definition broadcastA2AEvent (event : value) : M unit :=
  sendToClients (object [("type", VStr "agent_comms"); ("data", event)]) >>
  let! comms := tryOr readComms (VArr []) in
  let! entry := commsEntry event in
  let! comms := push comms entry in
  let comms := if 200 <? List.length comms then sliceLast 200 comms else comms in
  try_ (writeComms (VArr comms)).

(** ** The extractor: [processSessionLine] *)

Definition isArray (v : value) : bool :=
  match v with VArr _ => true | _ => false end.

Definition elements (v : value) : list value :=
  match v with VArr l => l | _ => [] end.

(** [(v || '').substring(0, 200)]: a [TypeError] when [v] is truthy and not
    a string. *)
Definition excerpt (v : value) : M value :=
  match orElse v (VStr "") with
  | VStr s => ret (VStr (String.substring 0 200 s))
  | _ => throw
  end.

(** The body of [msg.content.forEach(block => ...)]. *)
Definition toolCall (obj : value) (agentId : string) (block : value) : M unit :=
  let! ty := get block "type" in
  if negb (isStr ty "toolCall") then ret tt else
  let name := prop block "name" in
  if negb (isStr name "sessions_spawn") && negb (isStr name "sessions_send")
  then ret tt else
  let args := orElse (prop block "arguments") (VObj []) in
  if isStr name "sessions_spawn" then
    let! task := excerpt (prop args "task") in
    broadcastA2AEvent (object
      [("ts", prop obj "timestamp");
       ("fromAgent", VStr agentId);
       ("action", name);
       ("event", VStr "agent.spawn");
       ("toAgent", orElse (prop args "agentId")
                     (orElse (prop args "label") (VStr "subagent")));
       ("task", task);
       ("model", orElse (prop args "model") VNull);
       ("label", orElse (prop args "label") VNull)])
  else
    let! message := excerpt (prop args "message") in
    broadcastA2AEvent (object
      [("ts", prop obj "timestamp");
       ("fromAgent", VStr agentId);
       ("action", name);
       ("event", VStr "agent.send");
       ("toAgent", orElse (prop args "sessionKey")
                     (orElse (prop args "label") (VStr "?")));
       ("message", message)]).

(** The event built from a [toolResult] message. *)
Definition toolResultEvent (obj msg : value) (agentId : string) : value :=
  let details := orElse (prop msg "details") (VObj []) in
  let head :=
    [("ts", prop obj "timestamp");
     ("fromAgent", VStr agentId);
     ("action", prop msg "toolName");
     ("status", orElse (prop details "status") (VStr "unknown"))] in
  if isStr (prop details "status") "error" || isStr (prop details "status") "forbidden"
  then object (head ++
         [("event", VStr "agent.error");
          ("error", orElse (prop details "error") (VStr "unknown error"))])
  else if isStr (prop msg "toolName") "sessions_spawn"
  then object (head ++
         [("event", VStr "agent.spawn_ok");
          ("runId", orElse (prop details "runId") VNull);
          ("childSessionKey", orElse (prop details "childSessionKey") VNull)])
  else object (head ++
         [("event", VStr "agent.send_ok");
          ("runId", orElse (prop details "runId") VNull)]).

Definition processSessionLine (obj : value) (agentId : string) : M unit :=
  let! ty := get obj "type" in
  if negb (isStr ty "message") then ret tt else
  let msg := prop obj "message" in
  if negb (truthy msg) then ret tt else
  (if isStr (prop msg "role") "assistant" && isArray (prop msg "content")
   then forEach (toolCall obj agentId) (elements (prop msg "content"))
   else ret tt) >>
  if isStr (prop msg "role") "toolResult" &&
     (isStr (prop msg "toolName") "sessions_spawn" ||
      isStr (prop msg "toolName") "sessions_send")
  then broadcastA2AEvent (toolResultEvent obj msg agentId)
  else ret tt.

(** ** File system and streams *)

(** [try { x = c } catch { return; }], then the rest of the function. *)
Definition tryReturn {A} (c : M A) (k : A -> M unit) : M unit :=
  fun s => match c s with
           | (Ok a, s') => k a s'
           | (Throw, s') => (Ok tt, s')
           end.

(** [fs.statSync(filePath)]: the path and [stats.size]; throws when the
    path is not a string or names no file. *)
Definition statSync (filePath : value) : M (string * nat) :=
  fun s => match filePath with
           | VStr p => match files s !! p with
                       | Some content => (Ok (p, String.length content), s)
                       | None => (Throw, s)
                       end
           | _ => (Throw, s)
           end.

(** [sessionFileOffsets[filePath] || 0] *)
Definition offsetOf (p : string) : M nat :=
  fun s => (Ok (default 0 (sessionFileOffsets s !! p)), s).

(** [sessionFileOffsets[filePath] = size] *)
Definition setOffset (p : string) (size : nat) : M unit :=
  fun s => (Ok tt, withSessionFileOffsets (<[p := size]> (sessionFileOffsets s)) s).

(** [fs.createReadStream(...)] with its ['data'] and ['end'] listeners: the
    stream is started; its ['end'] listener runs in a later turn of the
    event loop. *)
Definition createReadStream (st : stream) : M unit :=
  fun s => (Ok tt, withStreams (streams s ++ [st]) s).

(** What a stream collected in [buffer] when it ends; a stream on a file
    that is gone emits ['error'], which has no listener. *)
Definition streamData (p : string) (start size : nat) : M string :=
  fun s => match files s !! p with
           | Some content => (Ok (readRange start size content), s)
           | None => (Throw, s)
           end.

Definition tailSessionFile (filePath : value) (agentId : string) : M unit :=
  tryReturn (statSync filePath) (fun stats =>
    let! prevOffset := offsetOf stats.1 in
    if stats.2 <=? prevOffset then setOffset stats.1 stats.2
    else createReadStream (SessionRead stats.1 prevOffset stats.2 agentId)).

(** [lastSessionUpdates[agentId]] *)
Definition updatesOf (agentId : string) : M (option (gmap string value)) :=
  fun s => (Ok (lastSessionUpdates s !! agentId), s).

(** [lastSessionUpdates[agentId] = {}] *)
Definition resetUpdates (agentId : string) : M unit :=
  fun s => (Ok tt, withLastSessionUpdates (<[agentId := ∅]> (lastSessionUpdates s)) s).

(** [lastSessionUpdates[agentId][key]] *)
Definition lastUpdate (agentId key : string) : M value :=
  fun s => match lastSessionUpdates s !! agentId with
           | Some m => (Ok (default VUndef (m !! key)), s)
           | None => (Throw, s)
           end.

(** [lastSessionUpdates[agentId][key] = updatedAt] *)
Definition setUpdate (agentId key : string) (updatedAt : value) : M unit :=
  fun s => match lastSessionUpdates s !! agentId with
           | Some m => (Ok tt, withLastSessionUpdates
                                 (<[agentId := <[key := updatedAt]> m]> (lastSessionUpdates s)) s)
           | None => (Throw, s)
           end.

(** [Object.entries(v)] *)
Definition objectEntries (v : value) : M (list (string * value)) :=
  match v with
  | VObj l => ret l
  | VArr l => ret (imap (fun i x => (pretty i, x)) l)
  | VStr t => ret (imap (fun i c => (pretty i, VStr (String c EmptyString)))
                        (list_ascii_of_string t))
  | VBool _ | VNum _ => ret []
  | VUndef | VNull => throw
  end.

(** ** The agent communications API: [GET] and [POST /api/agent-comms] *)

(** What a handler answers: [res.status(status).json(body)], the status
    being 200 when the code sets none.  An answer built in a [catch] from
    the exception carries [err.message], a text of the JavaScript engine
    that is not modelled: only its status is. *)
Inductive response :=
| Json (status : nat) (body : value)
| Failed (status : nat).

(** The [try] block of [app.post('/api/agent-comms', ...)], for the request
    body [body] at the time [now] ([new Date().toISOString()]). *)
Definition postedEntry (body : value) (now : string) : value :=
  object [("timestamp", VStr now);
          ("from", prop body "from");
          ("to", prop body "to");
          ("message", prop body "message");
          ("status", orElse (prop body "status") (VStr "sent"))].

Definition postAgentCommsBody (body : value) (now : string) : M response :=
  let! from := get body "from" in
  if negb (truthy from) || negb (truthy (prop body "to"))
     || negb (truthy (prop body "message"))
  then ret (Json 400 (object [("error", VStr "Missing required fields")]))
  else
    let! comms := tryOr readComms (VArr []) in
    let! comms := push comms (postedEntry body now) in
    let comms := if 200 <? List.length comms then sliceLast 200 comms else comms in
    writeComms (VArr comms) >>
    ret (Json 200 (object [("success", VBool true); ("entry", postedEntry body now)])).

(** [try { ... } catch (err) { res.status(500).json({ error: err.message }) }] *)
Definition postAgentComms (body : value) (now : string) : M response :=
  fun s => match postAgentCommsBody body now s with
           | (Ok r, s') => (Ok r, s')
           | (Throw, s') => (Ok (Failed 500), s')
           end.

(** [comms.slice(-50).reverse()]: on a string [slice] gives a string,
    whose [reverse] is not a function. *)
Definition newestFirst (comms : value) : M (list value) :=
  match comms with
  | VArr l => ret (rev (sliceLast 50 l))
  | _ => throw
  end.

(** [app.get('/api/agent-comms', ...)] *)
Definition getAgentComms : M response :=
  fun s => match (let! comms := readComms in
                  let! recent := newestFirst comms in
                  ret (Json 200 (object [("communications", VArr recent)]))) s with
           | (Ok r, s') => (Ok r, s')
           | (Throw, s') => (Ok (Json 200 (object [("communications", VArr [])])), s')
           end.

(** ** Documents: [resolveDocumentPathOrNull] and the upload file name

    Paths are POSIX paths, as [path] treats them on the systems the server
    runs on. *)

(** [t.includes(c)] for a one-character [c]. *)
Fixpoint includes (c : ascii) (t : string) : bool :=
  match t with
  | EmptyString => false
  | String x r => Ascii.eqb x c || includes c r
  end.

Definition slash : ascii := "/"%char.
Definition backslash : ascii := "\"%char.
Definition nul : ascii := "000"%char.

(** [t.split(sep)] for a one-character [sep]. *)
Fixpoint splitOn (sep : ascii) (t : string) : list string :=
  match t with
  | EmptyString => [EmptyString]
  | String c r =>
      if Ascii.eqb c sep then EmptyString :: splitOn sep r
      else match splitOn sep r with
           | cur :: rest => String c cur :: rest
           | [] => [String c EmptyString]
           end
  end.

(** [l.join(sep)] *)
Fixpoint joinWith (sep : ascii) (l : list string) : string :=
  match l with
  | [] => EmptyString
  | [x] => x
  | x :: r => x +:+ String sep (joinWith sep r)
  end.

(** [path.basename(t)]: what follows the last slash, trailing slashes not
    counted; the empty string when there is nothing but slashes. *)
Definition basename (t : string) : string :=
  List.last (List.filter (fun seg => negb (String.eqb seg "")) (splitOn slash t)) "".

(** The segments of a normalised absolute path: empty and [.] segments
    are dropped, a [..] removes the segment before it, if any. *)
Fixpoint normalizeSegments (acc segs : list string) : list string :=
  match segs with
  | [] => acc
  | seg :: r =>
      if String.eqb seg "" || String.eqb seg "." then normalizeSegments acc r
      else if String.eqb seg ".." then normalizeSegments (removelast acc) r
      else normalizeSegments (acc ++ [seg]) r
  end.

(** [path.resolve(root, name)] for an absolute [root] and a relative,
    non-empty [name]. *)
Definition resolveUnder (root name : string) : string :=
  String slash
    (joinWith slash
       (normalizeSegments []
          (splitOn slash (root +:+ String slash (name +:+ String slash EmptyString))))).

(** [t.startsWith(p)] *)
Fixpoint startsWith (p t : string) : bool :=
  match p, t with
  | EmptyString, _ => true
  | String a p', String b t' => Ascii.eqb a b && startsWith p' t'
  | String _ _, EmptyString => false
  end.

Definition resolveDocumentPathOrNull (docsRoot : string) (filename : value)
  : option string :=
  match filename with
  | VStr f =>
      if String.eqb f "" then None
      else if includes slash f || includes backslash f || includes nul f then None
      else if negb (String.eqb (basename f) f) then None
      else if startsWith (docsRoot +:+ String slash EmptyString) (resolveUnder docsRoot f)
           then Some (resolveUnder docsRoot f)
           else None
  | _ => None
  end.

(** The characters [\s] matches, among the code units a [string] holds:
    the ASCII white space and the no-break space. *)
Definition isWhitespace (c : ascii) : bool := isSpace c || Ascii.eqb c "160"%char.

(** [t.replace(/\s+/g, '_')]; [run] tells that the character before was
    white space. *)
Fixpoint collapseSpaces (run : bool) (t : string) : string :=
  match t with
  | EmptyString => EmptyString
  | String c r =>
      if isWhitespace c
      then if run then collapseSpaces true r else String "_" (collapseSpaces true r)
      else String c (collapseSpaces false r)
  end.

(** [t.replace(/[\\/]/g, '_')] *)
Fixpoint replaceSeparators (t : string) : string :=
  match t with
  | EmptyString => EmptyString
  | String c r =>
      String (if Ascii.eqb c slash || Ascii.eqb c backslash then "_"%char else c)
             (replaceSeparators r)
  end.

(** [t.replace(/\0/g, '')] *)
Fixpoint removeNul (t : string) : string :=
  match t with
  | EmptyString => EmptyString
  | String c r => if Ascii.eqb c nul then removeNul r else String c (removeNul r)
  end.

(** The [filename] callback of the upload storage; [stamp] is the text of
    [Date.now()]. *)
Definition uploadFilename (originalname stamp : string) : string :=
  let safeName := removeNul (replaceSeparators (collapseSpaces false (basename originalname))) in
  if String.eqb safeName "" || String.eqb safeName "." || String.eqb safeName ".."
  then "upload_" +:+ stamp
  else safeName.

(** ** Configuration: the core agent ids ([config.js]) *)



(** ** Sample data *)

Definition dq : string := String "034"%char EmptyString.
Definition nl : string := String "010"%char EmptyString.

(** The record
    {type: message, timestamp: 1000, message: {role: assistant, content:
    [{type: toolCall, name: sessions_spawn, arguments: {agentId: ops,
    task: build report}}]}}. *)
Definition spawnRecord : value :=
  VObj [("type", VStr "message");
        ("timestamp", VNum 1000);
        ("message",
         VObj [("role", VStr "assistant");
               ("content",
                VArr [VObj [("type", VStr "toolCall");
                            ("name", VStr "sessions_spawn");
                            ("arguments",
                             VObj [("agentId", VStr "ops");
                                   ("task", VStr "build report")])]])])].

(** The event the extractor builds from [spawnRecord] for agent main. *)
Definition spawnEvent : value :=
  VObj [("ts", VNum 1000);
        ("fromAgent", VStr "main");
        ("action", VStr "sessions_spawn");
        ("event", VStr "agent.spawn");
        ("toAgent", VStr "ops");
        ("task", VStr "build report");
        ("model", VNull);
        ("label", VNull)].

(** A failed [sessions_send] result. *)
Definition sendFailure : value :=
  VObj [("type", VStr "message");
        ("timestamp", VNum 2000);
        ("message",
         VObj [("role", VStr "toolResult");
               ("toolName", VStr "sessions_send");
               ("details",
                VObj [("status", VStr "forbidden");
                      ("error", VStr "not allowed")])])].

Definition quoted (t : string) : string := dq +:+ t +:+ dq.

(** The text of [spawnRecord], one line of a session file. *)
Definition spawnText : string :=
  "{" +:+ quoted "type" +:+ ":" +:+ quoted "message" +:+ ","
  +:+ quoted "timestamp" +:+ ":1000,"
  +:+ quoted "message" +:+ ":{" +:+ quoted "role" +:+ ":" +:+ quoted "assistant" +:+ ","
  +:+ quoted "content" +:+ ":[{" +:+ quoted "type" +:+ ":" +:+ quoted "toolCall" +:+ ","
  +:+ quoted "name" +:+ ":" +:+ quoted "sessions_spawn" +:+ ","
  +:+ quoted "arguments" +:+ ":{" +:+ quoted "agentId" +:+ ":" +:+ quoted "ops" +:+ ","
  +:+ quoted "task" +:+ ":" +:+ quoted "build report" +:+ "}}]}}".

(** A session index with one session k, its [updatedAt] and its file f. *)
Definition indexText (updatedAt : string) : string :=
  "{" +:+ quoted "k" +:+ ":{" +:+ quoted "updatedAt" +:+ ":" +:+ updatedAt +:+ ","
  +:+ quoted "sessionFile" +:+ ":" +:+ quoted "f" +:+ "}}".

Definition indexValue (updatedAt : float) : list (string * value) :=
  [("k", VObj [("updatedAt", VNum updatedAt); ("sessionFile", VStr "f")])].

(** [JSON.parse] on the sample texts; any other text of the samples is not
    JSON. *)
Definition sampleParse (t : string) : option value :=
  if String.eqb t spawnText then Some spawnRecord
  else if String.eqb t (indexText "0") then Some (VObj (indexValue 0))
  else if String.eqb t (indexText "7") then Some (VObj (indexValue 7))
  else if String.eqb t "1" then Some (VNum 1)
  else None.

Definition sampleEventsFile : string := "/antfarm/events.jsonl".
Definition sampleAgentsBase : string := "/agents".
Definition sampleIndexPath : string := "/agents/main/sessions/sessions.json".

(** Spawn events that differ in their task. *)
Definition sampleEvent (i : nat) : value :=
  VObj [("ts", VNum 1000);
        ("fromAgent", VStr "main");
        ("action", VStr "sessions_spawn");
        ("event", VStr "agent.spawn");
        ("toAgent", VStr "ops");
        ("task", VStr (pretty i));
        ("model", VNull);
        ("label", VNull)].

Definition sampleEvents (n : nat) : list value := map sampleEvent (seq 0 n).

(** A process that has just started, over the files [fs], with the
    sockets [cs] connected. *)
Definition started (fs : gmap string string) (cs : list client) : state :=
  {| files := fs; commsFile := Absent; commsWritable := true; clients := cs;
     lastEventSize := 0; lastSessionUpdates := ∅; sessionFileOffsets := ∅;
     streams := []; trace := [] |}.

(** The files change under the process. *)
Definition withFiles (fs : gmap string string) (s : state) : state :=
  {| files := fs; commsFile := commsFile s; commsWritable := commsWritable s;
     clients := clients s; lastEventSize := lastEventSize s;
     lastSessionUpdates := lastSessionUpdates s;
     sessionFileOffsets := sessionFileOffsets s; streams := streams s;
     trace := trace s |}.

Definition viewer : client := {| cid := 1; ready := OPEN |}.
Definition sleeper : client := {| cid := 2; ready := CLOSING |}.

(** Sample states. *)

(** A session file whose only line has no terminator yet. *)
Definition unflushed : state := started {[ "f" := spawnText ]} [viewer].

(** A session file of which only the first 40 bytes are written. *)
Definition halfWritten : state :=
  started {[ "f" := String.substring 0 40 spawnText ]} [viewer].


(** The events file holds one event, not terminated yet. *)
Definition unflushedEvents : state := started {[ sampleEventsFile := "1" ]} [viewer].


(** A session file with a malformed line before a good one. *)
Definition garbledLine : state :=
  started {[ "f" := "{oops" +:+ nl +:+ spawnText +:+ nl ]} [viewer].

(** Agent main polled before, session k stored with [updatedAt] 5; the
    index now gives [updatedAt], and the session file has one line. *)
Definition polled (updatedAt : string) : state :=
  withLastSessionUpdates {[ "main" := {[ "k" := VNum 5 ]} ]}
    (started {[ sampleIndexPath := indexText updatedAt; "f" := spawnText +:+ nl ]}
       [viewer]).

(** The tool-call block of [spawnRecord]. *)
Definition spawnBlock : value :=
  VObj [("type", VStr "toolCall");
        ("name", VStr "sessions_spawn");
        ("arguments", VObj [("agentId", VStr "ops"); ("task", VStr "build report")])].

(** A [sessions_send] tool call. *)
Definition sendBlock : value :=
  VObj [("type", VStr "toolCall");
        ("name", VStr "sessions_send");
        ("arguments", VObj [("sessionKey", VStr "agent:ops:1"); ("message", VStr "status?")])].

(** An assistant message whose content is a [null] block between two
    spawn calls, its text, and [JSON.parse] on that text. *)
Definition brokenRecord : value :=
  VObj [("type", VStr "message");
        ("timestamp", VNum 1000);
        ("message",
         VObj [("role", VStr "assistant");
               ("content", VArr [spawnBlock; VNull; spawnBlock])])].

Definition spawnBlockText : string :=
  "{" +:+ quoted "type" +:+ ":" +:+ quoted "toolCall" +:+ ","
  +:+ quoted "name" +:+ ":" +:+ quoted "sessions_spawn" +:+ ","
  +:+ quoted "arguments" +:+ ":{" +:+ quoted "agentId" +:+ ":" +:+ quoted "ops" +:+ ","
  +:+ quoted "task" +:+ ":" +:+ quoted "build report" +:+ "}}".

Definition brokenText : string :=
  "{" +:+ quoted "type" +:+ ":" +:+ quoted "message" +:+ ","
  +:+ quoted "timestamp" +:+ ":1000,"
  +:+ quoted "message" +:+ ":{" +:+ quoted "role" +:+ ":" +:+ quoted "assistant" +:+ ","
  +:+ quoted "content" +:+ ":[" +:+ spawnBlockText +:+ ",null," +:+ spawnBlockText +:+ "]}}".

Definition brokenParse (t : string) : option value :=
  if String.eqb t brokenText then Some brokenRecord else sampleParse t.

(** The replay file holds an object, not an array. *)
Definition foreignReplay : state :=
  withCommsFile (Holds (VObj [])) (started ∅ [viewer]).

(** The session file has been read to its end. *)
Definition caughtUp : state :=
  withSessionFileOffsets {[ "f" := String.length (spawnText +:+ nl) ]}
    (started {[ "f" := spawnText +:+ nl ]} [viewer]).


(** The body of a POST, and the time of the request. *)
Definition samplePost : value :=
  VObj [("from", VStr "ops"); ("to", VStr "main"); ("message", VStr "done")].

Definition sampleNow : string := "2026-01-01T00:00:00.000Z".

(** The segments of a documents directory. *)
Definition sampleDocsRoot : list string := ["srv"; "public"; "documents"].

(** ** The pipeline, over its configuration and [JSON.parse] *)

Section Pipeline.

Set Default Proof Using "Type".

(** [JSON.parse] applied to the UTF-8 decoding of a byte string: [None]
    when it throws a [SyntaxError]. *)
Variable parse : string -> option value.

(** [config.openclaw.eventsFile], [config.openclaw.agentsDir] and
    [config.coreAgentIds]. *)
Variable EVENTS_FILE : string.
Variable AGENTS_BASE : string.
Variable CORE_AGENT_IDS : list string.

Definition JSONparse (text : string) : M value :=
  fun s => match parse text with
           | Some v => (Ok v, s)
           | None => (Throw, s)
           end.

(** *** [startEventTail] *)

(** The part of [startEventTail] before [fs.watchFile]. *)
Definition startEventTail : M unit :=
  fun s => match files s !! EVENTS_FILE with
           | Some content => (Ok tt, withLastEventSize (String.length content) s)
           | None => (Ok tt, withLastEventSize 0 s)
           end.

(** The [fs.watchFile] listener; [curr.size] is [0] for a missing file. *)
Definition eventsFileChanged : M unit :=
  fun s =>
    let currSize := match files s !! EVENTS_FILE with
                    | Some content => String.length content
                    | None => 0
                    end in
    if currSize <=? lastEventSize s
    then (Ok tt, withLastEventSize currSize s)
    else createReadStream (EventsRead (lastEventSize s) currSize) s.

(** The ['end'] listener of the stream [eventsFileChanged] creates. *)
Definition eventLine (line : string) : M unit :=
  try_ (let! event := JSONparse line in broadcastEvent event).

Definition eventsStreamEnd (start size : nat) : M unit :=
  let! buffer := streamData EVENTS_FILE start size in
  (fun s => (Ok tt, withLastEventSize size s)) >>
  forEach eventLine (linesOf buffer).

(** *** [tailSessionFile], second half: the ['end'] listener *)

Definition sessionLine (agentId line : string) : M unit :=
  try_ (let! obj := JSONparse line in processSessionLine obj agentId).

Definition sessionStreamEnd (filePath : string) (start size : nat) (agentId : string) : M unit :=
  let! buffer := streamData filePath start size in
  setOffset filePath size >>
  forEach (sessionLine agentId) (linesOf buffer).

Definition streamEnd (st : stream) : M unit :=
  match st with
  | SessionRead filePath start size agentId => sessionStreamEnd filePath start size agentId
  | EventsRead start size => eventsStreamEnd start size
  end.

(** The started streams end, oldest first. *)
Definition runStreams : M unit :=
  fun s => forEach streamEnd (streams s) (withStreams [] s).

(** One whole tail of a session file: [tailSessionFile], then the end of
    the stream it started. *)
Definition tail (filePath : string) (agentId : string) : M unit :=
  tailSessionFile (VStr filePath) agentId >> runStreams.

(** One whole tail of the events file. *)
Definition tailEvents : M unit := eventsFileChanged >> runStreams.

(** *** [pollSessionStores] *)

(** [path.join(AGENTS_BASE, agentId, 'sessions', 'sessions.json')] *)
Definition sessionsPath (agentId : string) : string :=
  AGENTS_BASE +:+ "/" +:+ agentId +:+ "/sessions/sessions.json".

(** First poll, the body of the loop over [Object.entries(sessions)]. *)
Definition baseline (agentId : string) (entry : string * value) : M unit :=
  let! updatedAt := get entry.2 "updatedAt" in
  setUpdate agentId entry.1 updatedAt >>
  if truthy (prop entry.2 "sessionFile")
  then try_ (let! stats := statSync (prop entry.2 "sessionFile") in
             setOffset stats.1 stats.2)
  else ret tt.

(** Later polls, the body of the loop over [Object.entries(sessions)]. *)
Definition refresh (agentId : string) (entry : string * value) : M unit :=
  let! prevUpdate := lastUpdate agentId entry.1 in
  let! currUpdate := get entry.2 "updatedAt" in
  if truthy currUpdate && negb (strictEq currUpdate prevUpdate)
  then setUpdate agentId entry.1 currUpdate >>
       if truthy (prop entry.2 "sessionFile")
       then tailSessionFile (prop entry.2 "sessionFile") agentId
       else ret tt
  else ret tt.

(** The [fs.readFile] callback of one agent, after [JSON.parse(data)]. *)
Definition pollSessions (agentId : string) (sessions : value) : M unit :=
  let! known := updatesOf agentId in
  match known with
  | None =>
      resetUpdates agentId >>
      let! entries := objectEntries sessions in
      forEach (baseline agentId) entries
  | Some _ =>
      let! entries := objectEntries sessions in
      forEach (refresh agentId) entries
  end.

(** [fs.readFile(sessionsPath, 'utf-8', (err, data) => ...)] *)
Definition pollAgent (agentId : string) : M unit :=
  fun s => match files s !! sessionsPath agentId with
           | None => (Ok tt, s)
           | Some data => tryReturn (JSONparse data) (pollSessions agentId) s
           end.



(** *** The ['connection'] handler *)

Definition backfillEvents (ws : nat) : M unit :=
  fun s => match files s !! EVENTS_FILE with
           | None => (Throw, s)
           | Some content =>
               forEach (fun line =>
                          try_ (let! event := JSONparse line in
                                send ws (object [("type", VStr "antfarm_event");
                                                 ("data", event);
                                                 ("backfill", VBool true)])))
                       (sliceLast 50 (linesOf (trim content))) s
           end.

(** [commsData.slice(-30)]: on a string it gives a string, whose
    [forEach] is not a function. *)
Definition recentComms (commsData : value) : M (list value) :=
  match commsData with
  | VArr l => ret (sliceLast 30 l)
  | _ => throw
  end.

Definition backfillComms (ws : nat) : M unit :=
  let! commsData := readComms in
  let! recent := recentComms commsData in
  forEach (fun comm =>
             let! details := get comm "details" in
             send ws (object [("type", VStr "agent_comms");
                              ("data", orElse details comm);
                              ("backfill", VBool true)]))
          recent.

Definition connection (ws : nat) : M unit :=
  try_ (backfillEvents ws) >>
  try_ (backfillComms ws) >>
  send ws (object [("type", VStr "backfill_complete")]).

(** A client connects: the WebSocket server adds the open socket to
    [wss.clients] and emits ['connection']. *)
Definition accept (ws : nat) : M unit :=
  fun s => connection ws (withClients (clients s ++ [{| cid := ws; ready := OPEN |}]) s).

(** [events.forEach(broadcastA2AEvent)], a sequence of publishes. *)
Definition publishAll (events : list value) : M unit :=
  forEach broadcastA2AEvent events.

(** ** Vocabulary of the statements *)

(** The extractor only publishes objects. *)
Definition isObject (v : value) : bool :=
  match v with VObj _ => true | _ => false end.

Definition isOpen (c : client) : bool :=
  match ready c with OPEN => true | _ => false end.

(** The sends of one broadcast, in the order of [wss.clients]. *)
Definition sends (message : value) (cs : list client) : list effect :=
  map (fun c => Sent (cid c) message) (List.filter isOpen cs).

Definition liveMessage (event : value) : value :=
  object [("type", VStr "agent_comms"); ("data", event)].

Definition backfillMessage (event : value) : value :=
  object [("type", VStr "agent_comms"); ("data", event); ("backfill", VBool true)].

Definition completeMessage : value :=
  object [("type", VStr "backfill_complete")].

(** The persisted entry of an event that is an object. *)
Definition entryOf (event : value) : value :=
  object
    [("timestamp", prop event "ts");
     ("from", prop event "fromAgent");
     ("to", orElse (prop event "toAgent") VNull);
     ("message", orElse (prop event "task")
                   (orElse (prop event "message")
                      (orElse (prop event "error") (prop event "status"))));
     ("status", orElse (prop event "status") (VStr "sent"));
     ("event", prop event "event");
     ("details", event)].

(** The replay buffer: the array [agent-comms.json] holds, empty when the
    file is missing or is not JSON. *)
Definition replay (c : stored) : list value :=
  match c with
  | Holds (VArr l) => l
  | _ => []
  end.

(** The array a publish starts from; [None] when the file parses to
    something that is not an array. *)
Definition priorComms (c : stored) : option (list value) :=
  match c with
  | Absent | Garbled => Some []
  | Holds (VArr l) => Some l
  | Holds _ => None
  end.

(** Reading of "persist first, then deliver": no write to the replay
    file comes after a send. *)
Fixpoint noWrite (t : list effect) : bool :=
  match t with
  | [] => true
  | CommsWrite _ _ :: _ => false
  | _ :: r => noWrite r
  end.

Fixpoint persistsBeforeDelivering (t : list effect) : bool :=
  match t with
  | [] => true
  | Sent _ _ :: r => noWrite r
  | _ :: r => persistsBeforeDelivering r
  end.

(** The buffer after one more event: append, keep the last 200. *)
Definition appended (l : list value) (event : value) : list value :=
  sliceLast 200 (l ++ [entryOf event]).

(** The state one publish leads to, from the array [l] it starts from. *)
Definition afterPublish (event : value) (l : list value) (s : state) : state :=
  let comms := VArr (appended l event) in
  withTrace (trace s ++ sends (liveMessage event) (clients s)
                     ++ [CommsRead; CommsWrite comms (commsWritable s)])
            (if commsWritable s then withCommsFile (Holds comms) s else s).

(** The antfarm messages the ['connection'] handler sends first. *)
Definition antfarmMessage (event : value) : value :=
  object [("type", VStr "antfarm_event"); ("data", event); ("backfill", VBool true)].

Definition eventsBackfill (fs : gmap string string) : list value :=
  match fs !! EVENTS_FILE with
  | None => []
  | Some content =>
      omap (fun line => antfarmMessage <$> parse line)
           (sliceLast 50 (linesOf (trim content)))
  end.

(** The socket of a new connection is not one of the known clients. *)
Definition fresh (ws : nat) (cs : list client) : Prop :=
  Forall (fun c => cid c <> ws) cs.

(** [msg.details || {}] and its [status]. *)
Definition detailsOf (msg : value) : value := orElse (prop msg "details") (VObj []).
Definition statusOf (msg : value) : value := prop (detailsOf msg) "status".

(** A piece of text with no line terminator in it. *)
Fixpoint unterminated (s : string) : bool :=
  match s with
  | EmptyString => true
  | String c r => negb (isNewline c) && unterminated r
  end.

Definition parses (line : string) : bool :=
  match parse line with Some _ => true | None => false end.

(** Everything of the state but the replay file and the trace. *)
Definition sameStores (s s' : state) : Prop :=
  files s' = files s /\
  clients s' = clients s /\
  commsWritable s' = commsWritable s /\
  lastEventSize s' = lastEventSize s /\
  lastSessionUpdates s' = lastSessionUpdates s /\
  sessionFileOffsets s' = sessionFileOffsets s /\
  streams s' = streams s.

(** A computation that touches the replay file and the sockets only. *)
Definition hubOnly {A} (c : M A) : Prop := forall s, sameStores s (c s).2.

(** A value whose properties can be read. *)
Definition readable (v : value) : bool :=
  match v with VUndef | VNull => false | _ => true end.

(** The test of a later poll: [currUpdate && currUpdate !== prevUpdate]. *)
Definition changed (known : gmap string value) (entry : string * value) : bool :=
  truthy (prop entry.2 "updatedAt")
  && negb (strictEq (prop entry.2 "updatedAt") (default VUndef (known !! entry.1))).



(** The [updatedAt] values the first poll stores. *)
Fixpoint baselined (known : gmap string value) (entries : list (string * value))
  : gmap string value :=
  match entries with
  | [] => known
  | e :: r => baselined (<[e.1 := prop e.2 "updatedAt"]> known) r
  end.

(** The offsets the first poll stores. *)
Definition seek (fs : gmap string string) (offsets : gmap string nat) (file : value)
  : gmap string nat :=
  match file with
  | VStr p => match fs !! p with
              | Some content => if truthy file then <[p := String.length content]> offsets
                                else offsets
              | None => offsets
              end
  | _ => offsets
  end.

Fixpoint seeked (fs : gmap string string) (offsets : gmap string nat)
    (entries : list (string * value)) : gmap string nat :=
  match entries with
  | [] => offsets
  | e :: r => seeked fs (seek fs offsets (prop e.2 "sessionFile")) r
  end.

(** ** Vocabulary of the further properties *)

(** [block.arguments || {}] *)
Definition argumentsOf (block : value) : value :=
  orElse (prop block "arguments") (VObj []).

Definition isString (v : value) : bool :=
  match v with VStr _ => true | _ => false end.

(** The tool-call blocks on which the body of the [forEach] throws: a
    [null] block, or a spawn (send) call whose task (message) is truthy
    and not a string. *)
Definition rejected (block : value) : bool :=
  negb (readable block)
  || (isStr (prop block "type") "toolCall"
      && ((isStr (prop block "name") "sessions_spawn"
           && negb (isString (orElse (prop (argumentsOf block) "task") (VStr ""))))
          || (isStr (prop block "name") "sessions_send"
              && negb (isString (orElse (prop (argumentsOf block) "message") (VStr "")))))).

(** A message sent for agent [agentId]: an [agent_comms] message whose
    event is from that agent. *)
Definition attributed (agentId : string) (e : effect) : Prop :=
  match e with
  | Sent _ m => prop m "type" = VStr "agent_comms" /\
                prop (prop m "data") "fromAgent" = VStr agentId
  | CommsRead | CommsWrite _ _ => True
  end.

(** A computation that only adds effects satisfying [P] to the trace. *)
Definition emits {A} (P : effect -> Prop) (c : M A) : Prop :=
  forall s, exists t, trace (c s).2 = trace s ++ t /\ Forall P t.

(** The entries of an array up to its first [null]. *)
Fixpoint readablePrefix (l : list value) : list value :=
  match l with
  | [] => []
  | x :: r => if readable x then x :: readablePrefix r else []
  end.

(** The message the ['connection'] handler sends for one entry of the
    replay file. *)
Definition commsMessage (comm : value) : value :=
  object [("type", VStr "agent_comms");
          ("data", orElse (prop comm "details") comm);
          ("backfill", VBool true)].

(** The agent-comms messages the ['connection'] handler sends, whatever
    the replay file holds. *)
Definition commsBackfill (c : stored) : list value :=
  match c with
  | Holds (VArr l) => map commsMessage (readablePrefix (sliceLast 30 l))
  | _ => []
  end.

(** The writer of a log file appends [chunk] to it (creating it). *)
Definition writerAppends (p chunk : string) (s : state) : state :=
  withFiles (<[p := default "" (files s !! p) +:+ chunk]> (files s)) s.

(** The same state over other files and other session offsets. *)
Definition relocate (fs : gmap string string) (offsets : gmap string nat) (s : state)
  : state :=
  withFiles fs (withSessionFileOffsets offsets s).

(** A computation that neither reads nor writes the files and the session
    offsets. *)
Definition hubLocal {A} (c : M A) : Prop :=
  forall fs offsets s, c (relocate fs offsets s) = ((c s).1, relocate fs offsets (c s).2).

(** A chunk of whole lines. *)
Definition terminated (chunk : string) : Prop :=
  chunk = "" \/ exists m, chunk = m +:+ nl.

(** The chunks one after the other. *)
Definition joined (chunks : list string) : string :=
  foldr String.append "" chunks.

(** The live message of an antfarm event. *)
Definition eventMessage (event : value) : value :=
  object [("type", VStr "antfarm_event"); ("data", event)].

(** The sends of the events tailer for some lines: every line that parses,
    to every open client. *)
Definition eventSends (cs : list client) (lines : list string) : list effect :=
  flat_map (fun event => sends (eventMessage event) cs) (omap parse lines).

(** A computation that leaves the files as they are. *)
Definition keepsFiles {A} (c : M A) : Prop := forall s, files (c s).2 = files s.

(** A value compared by value, not by reference. *)
Definition primitive (v : value) : bool := negb (isArray v || isObject v).

(** A name the documents routes accept. *)
Definition simpleName (f : string) : bool :=
  negb (String.eqb f "") && negb (includes slash f) && negb (includes backslash f)
  && negb (includes nul f) && negb (String.eqb f ".") && negb (String.eqb f "..").

(** A segment of a normalised path. *)
Definition plainSegment (seg : string) : Prop :=
  seg <> "" /\ seg <> "." /\ seg <> ".." /\ includes slash seg = false.

(** The normalised absolute path with these segments. *)
Definition absolutePath (segs : list string) : string :=
  String slash (joinWith slash segs).

(** A decimal digit; [Date.now()] prints as a run of them. *)
Definition isDigit (c : ascii) : bool :=
  (48 <=? nat_of_ascii c) && (nat_of_ascii c <=? 57).

(** Every character of [t] passes [P]. *)
Fixpoint charsAll (P : ascii -> bool) (t : string) : bool :=
  match t with
  | EmptyString => true
  | String c r => P c && charsAll P r
  end.

(** No white space in [t]. *)
Definition unspaced (t : string) : bool := charsAll (fun c => negb (isWhitespace c)) t.


(** * Properties *)

(** ** The hub *)

Lemma withTrace_same (s : state) : withTrace (trace s) s = s.
Proof. destruct s; reflexivity. Qed.

Lemma forEach_deliver (message : value) (cs : list client) (s : state) :
  forEach (deliver message) cs s = (Ok tt, withTrace (trace s ++ sends message cs) s).
Proof.
  revert s. induction cs as [|c cs IH]; intros s.
  - unfold sends; simpl. rewrite app_nil_r, withTrace_same. reflexivity.
  - simpl. unfold bind, deliver, sends, isOpen. simpl.
    destruct (ready c); simpl; rewrite IH; unfold sends; simpl;
      try (rewrite <- app_assoc; reflexivity); reflexivity.
Qed.

Lemma sendToClients_run (message : value) (s : state) :
  sendToClients message s = (Ok tt, withTrace (trace s ++ sends message (clients s)) s).
Proof. unfold sendToClients. apply forEach_deliver. Qed.

Lemma sliceLast_short {A} (n : nat) (l : list A) :
  List.length l <= n -> sliceLast n l = l.
Proof.
  intros H. unfold sliceLast.
  replace (List.length l - n) with 0 by lia. reflexivity.
Qed.

Lemma sliceLast_length {A} (n : nat) (l : list A) :
  List.length (sliceLast n l) = Nat.min (List.length l) n.
Proof. unfold sliceLast. rewrite length_drop. lia. Qed.

Lemma sliceLast_sliceLast {A} (n m : nat) (l : list A) :
  n <= m -> sliceLast n (sliceLast m l) = sliceLast n l.
Proof.
  intros H. unfold sliceLast. rewrite length_drop, drop_drop. f_equal. lia.
Qed.

Lemma cap_sliceLast {A} (l : list A) :
  (if 200 <? List.length l then sliceLast 200 l else l) = sliceLast 200 l.
Proof.
  destruct (Nat.ltb_spec 200 (List.length l)); [reflexivity|].
  symmetry. apply sliceLast_short. lia.
Qed.

Lemma publish_run (event : value) (l : list value) (s : state) :
  isObject event = true ->
  priorComms (commsFile s) = Some l ->
  broadcastA2AEvent event s = (Ok tt, afterPublish event l s).
Proof.
  intros Hobj Hprior.
  destruct event as [| | | | | |fields]; try discriminate.
  destruct s as [fs cf w cl les lsu sfo st tr].
  unfold broadcastA2AEvent, bind. rewrite sendToClients_run.
  unfold afterPublish, appended, liveMessage.
  destruct cf as [| |[]]; cbn in Hprior; inversion Hprior; subst; clear Hprior;
    cbn -[sliceLast sends object Nat.ltb List.length app];
    rewrite cap_sliceLast; destruct w;
    unfold try_, writeComms, log, bind, throw;
    cbn -[sliceLast sends object Nat.ltb List.length app];
    rewrite <- ?app_assoc; reflexivity.
Qed.

Lemma sliceLast_app_l {A} (n : nat) (a b : list A) :
  sliceLast n (sliceLast n a ++ b) = sliceLast n (a ++ b).
Proof.
  unfold sliceLast. rewrite !length_app, length_drop, !drop_app, drop_drop, length_drop.
  f_equal; f_equal; lia.
Qed.

Lemma assoc_filter_defined (k : string) (l : list (string * value)) :
  NoDup (map fst l) ->
  assoc k (List.filter (fun kv => defined kv.2) l) = assoc k l.
Proof.
  induction l as [|[k' v] l IH]; intros Hnd; [reflexivity|].
  inversion Hnd as [|? ? Hnotin Hnd']; subst. simpl.
  destruct (defined v) eqn:Hdef; simpl.
  - destruct (String.eqb k k'); [reflexivity|]. apply IH, Hnd'.
  - rewrite IH by assumption.
    destruct (String.eqb_spec k k') as [->|]; [|reflexivity].
    destruct v; try discriminate.
    clear -Hnotin. induction l as [|[k1 v1] l IHl]; [reflexivity|].
    simpl in *. apply not_elem_of_cons in Hnotin as [Hne Hnotin].
    destruct (String.eqb_spec k' k1); [congruence|]. apply IHl, Hnotin.
Qed.

Lemma prop_object (k : string) (l : list (string * value)) :
  NoDup (map fst l) -> prop (object l) k = assoc k l.
Proof. apply assoc_filter_defined. Qed.

Lemma details_entryOf (event : value) :
  isObject event = true -> prop (entryOf event) "details" = event.
Proof.
  intros H. unfold entryOf. rewrite prop_object.
  - reflexivity.
  - cbn. apply (bool_decide_unpack _). vm_compute. exact I.
Qed.

Lemma publishAll_cons (event : value) (events l : list value) (s : state) :
  isObject event = true ->
  priorComms (commsFile s) = Some l ->
  publishAll (event :: events) s = publishAll events (afterPublish event l s).
Proof.
  intros Hobj Hprior. unfold publishAll. simpl. unfold bind.
  rewrite (publish_run event l s) by assumption. reflexivity.
Qed.

Lemma afterPublish_commsFile (event : value) (l : list value) (s : state) :
  commsWritable s = true ->
  commsFile (afterPublish event l s) = Holds (VArr (appended l event)).
Proof. intros H. unfold afterPublish. rewrite H. reflexivity. Qed.

Lemma afterPublish_frame (event : value) (l : list value) (s : state) :
  files (afterPublish event l s) = files s /\
  commsWritable (afterPublish event l s) = commsWritable s /\
  clients (afterPublish event l s) = clients s /\
  streams (afterPublish event l s) = streams s /\
  lastEventSize (afterPublish event l s) = lastEventSize s /\
  lastSessionUpdates (afterPublish event l s) = lastSessionUpdates s /\
  sessionFileOffsets (afterPublish event l s) = sessionFileOffsets s.
Proof. unfold afterPublish. destruct s as [? ? []]; cbn; repeat split. Qed.

Lemma publishAll_replay (events l : list value) (s : state) :
  Forall (fun e => isObject e = true) events ->
  commsWritable s = true ->
  priorComms (commsFile s) = Some l ->
  List.length l <= 200 ->
  result (publishAll events) s = Ok tt /\
  priorComms (commsFile (exec (publishAll events) s))
    = Some (sliceLast 200 (l ++ map entryOf events)).
Proof.
  intros Hobj. revert l s.
  induction Hobj as [|e events He _ IH]; intros l s Hw Hprior Hlen.
  - split; [reflexivity|]. cbn. rewrite app_nil_r, sliceLast_short by assumption.
    assumption.
  - unfold result, exec in *. rewrite (publishAll_cons e events l s) by assumption.
    destruct (afterPublish_frame e l s) as (_ & Hw' & _).
    destruct (IH (appended l e) (afterPublish e l s)) as [Hres Hrep].
    + congruence.
    + rewrite afterPublish_commsFile by assumption. reflexivity.
    + unfold appended. rewrite sliceLast_length. lia.
    + split; [exact Hres|]. rewrite Hrep. f_equal. unfold appended.
      rewrite sliceLast_app_l, <- app_assoc. reflexivity.
Qed.

Lemma priorComms_replay (c : stored) (l : list value) :
  priorComms c = Some l -> replay c = l.
Proof.
  destruct c as [| |[]]; cbn; intros H; inversion H; reflexivity.
Qed.

Lemma map_details_entryOf (events : list value) :
  Forall (fun e => isObject e = true) events ->
  map (fun c => prop c "details") (map entryOf events) = events.
Proof.
  induction 1 as [|e events He _ IH]; [reflexivity|].
  cbn [map]. rewrite IH, details_entryOf by assumption. reflexivity.
Qed.

Lemma map_sliceLast {A B} (f : A -> B) (n : nat) (l : list A) :
  map f (sliceLast n l) = sliceLast n (map f l).
Proof. unfold sliceLast. rewrite length_map. symmetry. apply skipn_map. Qed.

(** Whatever array the file held, after a publish that wrote it the array
    has at most 200 entries. *)
Lemma publish_bounds_replay (event : value) (l : list value) (s : state) :
  isObject event = true ->
  priorComms (commsFile s) = Some l ->
  commsWritable s = true ->
  List.length (replay (commsFile (exec (broadcastA2AEvent event) s))) <= 200.
Proof.
  intros Hobj Hprior Hw. unfold exec. rewrite (publish_run event l s Hobj Hprior).
  cbn [snd]. rewrite afterPublish_commsFile by assumption.
  cbn [replay]. unfold appended. rewrite sliceLast_length. lia.
Qed.

(** C4. Starting from an empty (or missing, or unreadable) replay file
    that can be written, after any sequence of N publishes the persisted
    array holds min(N, 200) entries: the entries of the last 200 published
    events, in publish order, each carrying its event as [details]; its
    length never exceeds 200. *)
Theorem replay_buffer_bounded (events : list value) (s : state) :
  Forall (fun e => isObject e = true) events ->
  commsWritable s = true ->
  priorComms (commsFile s) = Some [] ->
  result (publishAll events) s = Ok tt /\
  replay (commsFile (exec (publishAll events) s)) = sliceLast 200 (map entryOf events) /\
  map (fun c => prop c "details") (replay (commsFile (exec (publishAll events) s)))
    = sliceLast 200 events /\
  List.length (replay (commsFile (exec (publishAll events) s)))
    = Nat.min (List.length events) 200 /\
  List.length (replay (commsFile (exec (publishAll events) s))) <= 200.
Proof.
  intros Hobj Hw Hprior.
  destruct (publishAll_replay events [] s Hobj Hw Hprior) as [Hres Hrep];
    [cbn; lia|].
  apply priorComms_replay in Hrep. cbn [app] in Hrep. rewrite Hrep.
  split; [exact Hres|]. split; [reflexivity|].
  split.
  - rewrite map_sliceLast, map_details_entryOf by assumption. reflexivity.
  - rewrite sliceLast_length, length_map. split; [reflexivity|lia].
Qed.

(** C5 (as the code has it). A publish first sends the event to every
    client of [wss.clients] whose [readyState] is [OPEN], in order,
    skipping the others (nothing is queued: no other part of the state
    changes); only then does it read the replay file, append the entry,
    keep the last 200 and write the file back. *)
Theorem publish_delivers_then_persists (event : value) (l : list value) (s : state) :
  isObject event = true ->
  priorComms (commsFile s) = Some l ->
  result (broadcastA2AEvent event) s = Ok tt /\
  exec (broadcastA2AEvent event) s = afterPublish event l s /\
  trace (exec (broadcastA2AEvent event) s)
    = trace s
      ++ map (fun c => Sent (cid c) (liveMessage event)) (List.filter isOpen (clients s))
      ++ [CommsRead;
          CommsWrite (VArr (sliceLast 200 (l ++ [entryOf event]))) (commsWritable s)] /\
  (commsWritable s = true ->
   commsFile (exec (broadcastA2AEvent event) s)
     = Holds (VArr (sliceLast 200 (l ++ [entryOf event])))) /\
  clients (exec (broadcastA2AEvent event) s) = clients s /\
  streams (exec (broadcastA2AEvent event) s) = streams s.
Proof.
  intros Hobj Hprior. unfold result, exec.
  rewrite (publish_run event l s Hobj Hprior). cbn [fst snd].
  destruct (afterPublish_frame event l s) as (_ & _ & Hc & Hs & _).
  repeat split; try assumption.
  intros Hw. apply afterPublish_commsFile, Hw.
Qed.

(** C10. When the replay file is missing or is not JSON, a publish of an
    event still returns normally, every open client is sent the event, and
    (the write going through) the file then holds the array of that one
    entry. *)
Theorem publish_survives_unreadable_replay (event : value) (s : state) :
  isObject event = true ->
  commsFile s = Absent \/ commsFile s = Garbled ->
  result (broadcastA2AEvent event) s = Ok tt /\
  (forall c, In c (clients s) -> isOpen c = true ->
     In (Sent (cid c) (liveMessage event)) (trace (exec (broadcastA2AEvent event) s))) /\
  (commsWritable s = true ->
   commsFile (exec (broadcastA2AEvent event) s) = Holds (VArr [entryOf event])).
Proof.
  intros Hobj Hfile.
  assert (Hprior : priorComms (commsFile s) = Some []).
  { destruct Hfile as [-> | ->]; reflexivity. }
  unfold result, exec. rewrite (publish_run event [] s Hobj Hprior). cbn [fst snd].
  split; [reflexivity|]. split.
  - intros c Hin Hopen. unfold afterPublish. cbn [trace withTrace].
    apply in_or_app. right. apply in_or_app. left.
    unfold sends. apply in_map_iff. exists c. split; [reflexivity|].
    apply filter_In. split; assumption.
  - intros Hw. rewrite afterPublish_commsFile by assumption. reflexivity.
Qed.

(** ** Backfill *)

Lemma received_app (ws : nat) (a b : list effect) :
  received ws (a ++ b) = received ws a ++ received ws b.
Proof.
  induction a as [|[c m| |] a IH]; cbn; [reflexivity| |assumption|assumption].
  destruct (Nat.eqb ws c); cbn; rewrite IH; reflexivity.
Qed.

Lemma received_map_Sent (ws : nat) (ms : list value) :
  received ws (map (Sent ws) ms) = ms.
Proof.
  induction ms as [|m ms IH]; [reflexivity|].
  cbn. rewrite Nat.eqb_refl, IH. reflexivity.
Qed.

Lemma received_sends_fresh (ws : nat) (message : value) (cs : list client) :
  fresh ws cs -> received ws (sends message cs) = [].
Proof.
  induction 1 as [|c cs Hc _ IH]; [reflexivity|].
  unfold sends in *. cbn. destruct (isOpen c); [|assumption].
  cbn. destruct (Nat.eqb_spec ws (cid c)); [congruence|assumption].
Qed.

Lemma received_sends_new (ws : nat) (message : value) (cs : list client) :
  fresh ws cs ->
  received ws (sends message (cs ++ [{| cid := ws; ready := OPEN |}])) = [message].
Proof.
  intros Hfresh. unfold sends. rewrite List.filter_app, map_app, received_app.
  fold (sends message cs). rewrite received_sends_fresh by assumption.
  cbn. rewrite Nat.eqb_refl. reflexivity.
Qed.

Lemma publishAll_frame (events l : list value) (s : state) :
  Forall (fun e => isObject e = true) events ->
  commsWritable s = true ->
  priorComms (commsFile s) = Some l ->
  files (exec (publishAll events) s) = files s /\
  clients (exec (publishAll events) s) = clients s /\
  commsWritable (exec (publishAll events) s) = true.
Proof.
  intros Hobj. revert l s.
  induction Hobj as [|e events He _ IH]; intros l s Hw Hprior.
  - repeat split. assumption.
  - unfold exec in *. rewrite (publishAll_cons e events l s) by assumption.
    destruct (afterPublish_frame e l s) as (Hf & Hw' & Hc & _).
    destruct (IH (appended l e) (afterPublish e l s)) as (Hf2 & Hc2 & Hw2).
    + congruence.
    + rewrite afterPublish_commsFile by assumption. reflexivity.
    + repeat split; congruence.
Qed.

Lemma publishAll_received (n ws : nat) (events l : list value) (s : state) :
  Forall (fun e => isObject e = true) events ->
  commsWritable s = true ->
  priorComms (commsFile s) = Some l ->
  (forall m, received ws (sends m (clients s)) = repeat m n) ->
  received ws (trace (exec (publishAll events) s))
    = received ws (trace s) ++ flat_map (fun e => repeat (liveMessage e) n) events.
Proof.
  intros Hobj. revert l s.
  induction Hobj as [|e events He _ IH]; intros l s Hw Hprior Hn.
  - cbn. rewrite app_nil_r. reflexivity.
  - unfold exec in *. rewrite (publishAll_cons e events l s) by assumption.
    destruct (afterPublish_frame e l s) as (_ & Hw' & Hc & _).
    rewrite (IH (appended l e) (afterPublish e l s)).
    + unfold afterPublish. cbn [trace withTrace flat_map].
      rewrite !received_app, Hn. cbn [received]. rewrite app_nil_r, <- app_assoc.
      reflexivity.
    + congruence.
    + rewrite afterPublish_commsFile by assumption. reflexivity.
    + intros m. rewrite Hc. apply Hn.
Qed.

Lemma forEach_cons_ok {A} (f : A -> M unit) (x : A) (l : list A) (s s' : state) :
  f x s = (Ok tt, s') -> forEach f (x :: l) s = forEach f l s'.
Proof. intros H. cbn. unfold bind. rewrite H. reflexivity. Qed.

Lemma backfillEvents_line (ws : nat) (line : string) (s : state) :
  try_ (let! event := JSONparse line in
        send ws (object [("type", VStr "antfarm_event");
                         ("data", event);
                         ("backfill", VBool true)])) s
  = (Ok tt, match parse line with
            | Some event => withTrace (trace s ++ [Sent ws (antfarmMessage event)]) s
            | None => s
            end).
Proof. unfold try_, bind, JSONparse. destruct (parse line); reflexivity. Qed.

Lemma backfillEvents_lines (ws : nat) (lines : list string) (s : state) :
  forEach (fun line =>
             try_ (let! event := JSONparse line in
                   send ws (object [("type", VStr "antfarm_event");
                                    ("data", event);
                                    ("backfill", VBool true)])))
          lines s
  = (Ok tt, withTrace (trace s ++ map (Sent ws)
                         (omap (fun line => antfarmMessage <$> parse line) lines)) s).
Proof.
  revert s. induction lines as [|line lines IH]; intros s.
  - cbn. rewrite app_nil_r, withTrace_same. reflexivity.
  - erewrite forEach_cons_ok by apply backfillEvents_line.
    cbn [omap list_omap]. destruct (parse line) as [event|]; cbn [fmap option_fmap option_map].
    + rewrite IH. cbn. rewrite <- app_assoc. reflexivity.
    + rewrite IH. reflexivity.
Qed.

Lemma backfillEvents_run (ws : nat) (s : state) :
  try_ (backfillEvents ws) s
  = (Ok tt, withTrace (trace s ++ map (Sent ws) (eventsBackfill (files s))) s).
Proof.
  unfold try_, backfillEvents, eventsBackfill.
  destruct (files s !! EVENTS_FILE) as [content|].
  - rewrite backfillEvents_lines. reflexivity.
  - cbn. rewrite app_nil_r, withTrace_same. reflexivity.
Qed.

Lemma backfillComms_entry (ws : nat) (event : value) (s : state) :
  isObject event = true ->
  (let! details := get (entryOf event) "details" in
   send ws (object [("type", VStr "agent_comms");
                    ("data", orElse details (entryOf event));
                    ("backfill", VBool true)])) s
  = (Ok tt, withTrace (trace s ++ [Sent ws (backfillMessage event)]) s).
Proof.
  intros Hobj.
  change (get (entryOf event) "details") with (@ret value (prop (entryOf event) "details")).
  rewrite details_entryOf by assumption.
  destruct event; try discriminate. reflexivity.
Qed.

Lemma backfillComms_entries (ws : nat) (events : list value) (s : state) :
  Forall (fun e => isObject e = true) events ->
  forEach (fun comm =>
             let! details := get comm "details" in
             send ws (object [("type", VStr "agent_comms");
                              ("data", orElse details comm);
                              ("backfill", VBool true)]))
          (map entryOf events) s
  = (Ok tt, withTrace (trace s ++ map (fun e => Sent ws (backfillMessage e)) events) s).
Proof.
  intros Hobj. revert s.
  induction Hobj as [|e events He _ IH]; intros s.
  - cbn. rewrite app_nil_r, withTrace_same. reflexivity.
  - cbn [map]. erewrite forEach_cons_ok by (apply backfillComms_entry, He).
    rewrite IH. cbn. rewrite <- app_assoc. reflexivity.
Qed.

Lemma backfillComms_run (ws : nat) (events : list value) (s : state) :
  Forall (fun e => isObject e = true) events ->
  priorComms (commsFile s) = Some (map entryOf events) ->
  try_ (backfillComms ws) s
  = (Ok tt, withTrace (trace s ++ [CommsRead]
                         ++ map (fun e => Sent ws (backfillMessage e)) (sliceLast 30 events)) s).
Proof.
  intros Hobj Hprior.
  unfold try_, backfillComms, bind at 1, readComms, bind at 1, log.
  destruct s as [fs cf w cl les lsu sfo st tr]. cbn in Hprior.
  cbn [commsFile withTrace trace].
  destruct cf as [| |[]]; cbn in Hprior; inversion Hprior as [Heq]; clear Hprior.
  - symmetry in Heq. apply map_eq_nil in Heq. subst events. reflexivity.
  - symmetry in Heq. apply map_eq_nil in Heq. subst events. reflexivity.
  - unfold bind at 1, recentComms, ret. rewrite <- map_sliceLast.
    rewrite backfillComms_entries.
    + cbn. rewrite <- app_assoc. reflexivity.
    + unfold sliceLast. apply Forall_drop, Hobj.
Qed.

Lemma accept_run (ws : nat) (events : list value) (s : state) :
  Forall (fun e => isObject e = true) events ->
  priorComms (commsFile s) = Some (map entryOf events) ->
  accept ws s
  = (Ok tt,
     withTrace (trace s
                ++ map (Sent ws) (eventsBackfill (files s))
                ++ [CommsRead]
                ++ map (fun e => Sent ws (backfillMessage e)) (sliceLast 30 events)
                ++ [Sent ws completeMessage])
       (withClients (clients s ++ [{| cid := ws; ready := OPEN |}]) s)).
Proof.
  intros Hobj Hprior. unfold accept, connection.
  unfold bind at 1. rewrite backfillEvents_run.
  unfold bind at 1. rewrite (backfillComms_run ws events) by assumption.
  destruct s. cbn. unfold send, log. cbn. rewrite <- !app_assoc. reflexivity.
Qed.

Lemma flat_map_repeat_0 {A B} (f : A -> B) (l : list A) :
  flat_map (fun x => repeat (f x) 0) l = [].
Proof. induction l; [reflexivity|assumption]. Qed.

Lemma flat_map_repeat_1 {A B} (f : A -> B) (l : list A) :
  flat_map (fun x => repeat (f x) 1) l = map f l.
Proof. induction l as [|x l IH]; [reflexivity|]. cbn [flat_map map]. rewrite IH. reflexivity. Qed.

(** C3 (as the code has it). Starting from an empty replay file that can
    be written, a socket that connects after N publishes is sent: the
    antfarm backfill; then the last min(N, 30) published events, oldest
    first, each tagged [backfill]; then one [backfill_complete]; and from
    then on every event published afterwards, once each, in order. *)
Theorem backfill_then_live (ws : nat) (events later : list value) (s : state) :
  Forall (fun e => isObject e = true) events ->
  Forall (fun e => isObject e = true) later ->
  commsWritable s = true ->
  priorComms (commsFile s) = Some [] ->
  fresh ws (clients s) ->
  received ws (trace (exec (publishAll later)
                        (exec (accept ws) (exec (publishAll events) s))))
  = received ws (trace s)
    ++ eventsBackfill (files s)
    ++ map backfillMessage (sliceLast 30 events)
    ++ [completeMessage]
    ++ map liveMessage later.
Proof.
  intros Hobj Hlater Hw Hprior Hfresh.
  destruct (publishAll_replay events [] s Hobj Hw Hprior) as [_ Hrep]; [cbn; lia|].
  destruct (publishAll_frame events [] s Hobj Hw Hprior) as (Hf & Hc & Hw1).
  pose proof (publishAll_received 0 ws events [] s Hobj Hw Hprior) as Hrec.
  rewrite flat_map_repeat_0, app_nil_r in Hrec.
  cbn [app] in Hrep. rewrite <- map_sliceLast in Hrep.
  set (s1 := exec (publishAll events) s) in *.
  assert (Hobj200 : Forall (fun e => isObject e = true) (sliceLast 200 events)).
  { unfold sliceLast. apply Forall_drop, Hobj. }
  unfold exec at 2. rewrite (accept_run ws (sliceLast 200 events) s1 Hobj200 Hrep).
  cbn [snd]. rewrite sliceLast_sliceLast by lia.
  erewrite (publishAll_received 1 ws later); [| exact Hlater | | |].
  - rewrite flat_map_repeat_1. cbn [trace withTrace].
    rewrite !received_app, Hrec, Hf.
    + rewrite received_map_Sent. cbn [received]. rewrite Nat.eqb_refl.
      rewrite <- (map_map backfillMessage (Sent ws)), received_map_Sent.
      rewrite <- !app_assoc. reflexivity.
    + intros m. apply received_sends_fresh. assumption.
  - destruct s1; cbn in *. assumption.
  - destruct s1; cbn in *. exact Hrep.
  - intros m. cbn [repeat].
    replace (clients _) with (clients s1 ++ [{| cid := ws; ready := OPEN |}])
      by (destruct s1; reflexivity).
    apply received_sends_new. rewrite Hc. assumption.
Qed.

(** ** The extractor *)

Ltac distinct_keys :=
  cbn; apply (bool_decide_unpack _); vm_compute; exact I.

Lemma isStr_true (v : value) (t : string) : isStr v t = true <-> v = VStr t.
Proof.
  unfold isStr. destruct v; cbn; try (split; [discriminate|discriminate]).
  rewrite String.eqb_eq. split; [intros ->; reflexivity|intros [= ->]; reflexivity].
Qed.

Lemma isStr_false (v : value) (t : string) : isStr v t = false <-> v <> VStr t.
Proof.
  rewrite <- isStr_true. destruct (isStr v t); split; congruence.
Qed.

(** C6. The sample spawn record, processed for agent main, amounts to
    exactly one publish, of an event with [ts] 1000, [fromAgent] main,
    [toAgent] ops, [event] agent.spawn (the spawn-request kind) and [task]
    (the excerpt) build report. *)
Theorem classification_example (s : state) :
  processSessionLine spawnRecord "main" s = broadcastA2AEvent spawnEvent s /\
  prop spawnEvent "ts" = VNum 1000 /\
  prop spawnEvent "fromAgent" = VStr "main" /\
  prop spawnEvent "toAgent" = VStr "ops" /\
  prop spawnEvent "event" = VStr "agent.spawn" /\
  prop spawnEvent "task" = VStr "build report".
Proof.
  split; [|repeat split].
  change (processSessionLine spawnRecord "main" s)
    with (((broadcastA2AEvent spawnEvent >> ret tt) >> ret tt) s).
  unfold bind, ret. destruct (broadcastA2AEvent spawnEvent s) as [[[]|] s']; reflexivity.
Qed.

Lemma toolResult_published (obj msg : value) (agentId : string) (s : state) :
  prop obj "type" = VStr "message" ->
  prop obj "message" = msg ->
  prop msg "role" = VStr "toolResult" ->
  prop msg "toolName" = VStr "sessions_spawn" \/ prop msg "toolName" = VStr "sessions_send" ->
  processSessionLine obj agentId s = broadcastA2AEvent (toolResultEvent obj msg agentId) s.
Proof.
  intros Hty Hmsg Hrole Htool.
  destruct obj as [| | | | | |fo]; try discriminate.
  destruct msg as [| | | | | |fm]; try discriminate.
  unfold processSessionLine. cbn [get]. unfold bind at 1, ret at 1.
  rewrite Hty, Hmsg, Hrole.
  change (isStr (VStr "message") "message") with true.
  change (isStr (VStr "toolResult") "assistant") with false.
  change (isStr (VStr "toolResult") "toolResult") with true.
  cbn [negb truthy andb].
  assert (Hor : isStr (prop (VObj fm) "toolName") "sessions_spawn"
                || isStr (prop (VObj fm) "toolName") "sessions_send" = true).
  { destruct Htool as [-> | ->]; reflexivity. }
  rewrite Hor. reflexivity.
Qed.

(** C7. A [toolResult] message of [sessions_spawn] or [sessions_send] is
    published as one event.  When the [status] of its details is error or
    forbidden the event is an agent.error carrying the error text
    ([details.error], or unknown error), whichever of the two tools it
    comes from; otherwise it is an agent.spawn_ok or an agent.send_ok,
    after the tool. *)
Theorem toolResult_classification (obj msg : value) (agentId : string) (s : state) :
  prop obj "type" = VStr "message" ->
  prop obj "message" = msg ->
  prop msg "role" = VStr "toolResult" ->
  prop msg "toolName" = VStr "sessions_spawn" \/ prop msg "toolName" = VStr "sessions_send" ->
  processSessionLine obj agentId s = broadcastA2AEvent (toolResultEvent obj msg agentId) s /\
  (statusOf msg = VStr "error" \/ statusOf msg = VStr "forbidden" ->
   prop (toolResultEvent obj msg agentId) "event" = VStr "agent.error" /\
   prop (toolResultEvent obj msg agentId) "error"
     = orElse (prop (detailsOf msg) "error") (VStr "unknown error")) /\
  (statusOf msg <> VStr "error" -> statusOf msg <> VStr "forbidden" ->
   (prop msg "toolName" = VStr "sessions_spawn" ->
    prop (toolResultEvent obj msg agentId) "event" = VStr "agent.spawn_ok") /\
   (prop msg "toolName" = VStr "sessions_send" ->
    prop (toolResultEvent obj msg agentId) "event" = VStr "agent.send_ok")).
Proof.
  intros Hty Hmsg Hrole Htool.
  split; [apply toolResult_published; assumption|].
  unfold statusOf, detailsOf, toolResultEvent. split.
  - intros Hst.
    assert (Hc : isStr (prop (orElse (prop msg "details") (VObj [])) "status") "error"
                 || isStr (prop (orElse (prop msg "details") (VObj [])) "status") "forbidden"
                 = true).
    { destruct Hst as [-> | ->]; reflexivity. }
    rewrite Hc. split; (rewrite prop_object; [reflexivity | distinct_keys]).
  - intros Herr Hforb.
    apply isStr_false in Herr, Hforb. rewrite Herr, Hforb. cbn [orb].
    split; intros Ht; rewrite Ht.
    + change (isStr (VStr "sessions_spawn") "sessions_spawn") with true. cbn match.
      rewrite prop_object; [reflexivity | distinct_keys].
    + change (isStr (VStr "sessions_send") "sessions_spawn") with false. cbn match.
      rewrite prop_object; [reflexivity | distinct_keys].
Qed.

(** ** What publishing leaves alone *)

Lemma sameStores_refl (s : state) : sameStores s s.
Proof. repeat split. Qed.

Lemma sameStores_trans (s1 s2 s3 : state) :
  sameStores s1 s2 -> sameStores s2 s3 -> sameStores s1 s3.
Proof.
  intros (? & ? & ? & ? & ? & ? & ?) (? & ? & ? & ? & ? & ? & ?).
  repeat split; congruence.
Qed.

Lemma hubOnly_ret {A} (a : A) : hubOnly (ret a).
Proof. intros s. apply sameStores_refl. Qed.

Lemma hubOnly_throw {A} : hubOnly (@throw A).
Proof. intros s. apply sameStores_refl. Qed.

Lemma hubOnly_bind {A B} (c : M A) (k : A -> M B) :
  hubOnly c -> (forall a, hubOnly (k a)) -> hubOnly (bind c k).
Proof.
  intros Hc Hk s. unfold bind. specialize (Hc s).
  destruct (c s) as [[a|] s']; cbn [snd] in *; [|assumption].
  eapply sameStores_trans; [exact Hc | apply Hk].
Qed.

Lemma hubOnly_try (c : M unit) : hubOnly c -> hubOnly (try_ c).
Proof. intros Hc s. apply Hc. Qed.

Lemma hubOnly_tryOr {A} (c : M A) (d : A) : hubOnly c -> hubOnly (tryOr c d).
Proof.
  intros Hc s. unfold tryOr. specialize (Hc s).
  destruct (c s) as [[a|] s']; assumption.
Qed.

Lemma hubOnly_forEach {A} (f : A -> M unit) (l : list A) :
  (forall x, hubOnly (f x)) -> hubOnly (forEach f l).
Proof.
  intros Hf. induction l as [|x l IH]; [apply hubOnly_ret|].
  cbn [forEach]. apply hubOnly_bind; [apply Hf | intros _; exact IH].
Qed.

Lemma hubOnly_log (e : effect) : hubOnly (log e).
Proof. intros s. repeat split. Qed.

Lemma hubOnly_get (v : value) (k : string) : hubOnly (get v k).
Proof. destruct v; first [apply hubOnly_throw | apply hubOnly_ret]. Qed.

Lemma hubOnly_sendToClients (message : value) : hubOnly (sendToClients message).
Proof. intros s. rewrite sendToClients_run. repeat split. Qed.

Lemma hubOnly_readComms : hubOnly readComms.
Proof.
  apply hubOnly_bind; [apply hubOnly_log|]. intros _ s.
  destruct (commsFile s); apply sameStores_refl.
Qed.

Lemma hubOnly_writeComms (comms : value) : hubOnly (writeComms comms).
Proof.
  intros s. unfold writeComms. destruct (commsWritable s) eqn:Hw.
  - destruct s; repeat split.
  - apply (hubOnly_bind (log _) (fun _ => throw)); [apply hubOnly_log|].
    intros _. apply hubOnly_throw.
Qed.

Lemma hubOnly_broadcastA2AEvent (event : value) : hubOnly (broadcastA2AEvent event).
Proof.
  unfold broadcastA2AEvent.
  apply hubOnly_bind; [apply hubOnly_sendToClients|]. intros _.
  apply hubOnly_bind; [apply hubOnly_tryOr, hubOnly_readComms|]. intros comms.
  apply hubOnly_bind.
  { unfold commsEntry. apply hubOnly_bind; [apply hubOnly_get|].
    intros ts. apply hubOnly_ret. }
  intros entry. apply hubOnly_bind.
  { destruct comms; first [apply hubOnly_throw | apply hubOnly_ret]. }
  intros l. apply hubOnly_try, hubOnly_writeComms.
Qed.

Lemma hubOnly_excerpt (v : value) : hubOnly (excerpt v).
Proof.
  unfold excerpt. destruct (orElse v (VStr ""));
    first [apply hubOnly_throw | apply hubOnly_ret].
Qed.

Lemma hubOnly_toolCall (obj : value) (agentId : string) (block : value) :
  hubOnly (toolCall obj agentId block).
Proof.
  unfold toolCall. apply hubOnly_bind; [apply hubOnly_get|]. intros ty.
  destruct (negb (isStr ty "toolCall")); [apply hubOnly_ret|].
  destruct (negb (isStr (prop block "name") "sessions_spawn")
            && negb (isStr (prop block "name") "sessions_send")); [apply hubOnly_ret|].
  destruct (isStr (prop block "name") "sessions_spawn");
    (apply hubOnly_bind; [apply hubOnly_excerpt|]);
    intros; apply hubOnly_broadcastA2AEvent.
Qed.

Lemma hubOnly_processSessionLine (obj : value) (agentId : string) :
  hubOnly (processSessionLine obj agentId).
Proof.
  unfold processSessionLine. apply hubOnly_bind; [apply hubOnly_get|]. intros ty.
  destruct (negb (isStr ty "message")); [apply hubOnly_ret|].
  destruct (negb (truthy (prop obj "message"))); [apply hubOnly_ret|].
  apply hubOnly_bind.
  - destruct (_ && _); [|apply hubOnly_ret].
    apply hubOnly_forEach. intros block. apply hubOnly_toolCall.
  - intros _. destruct (_ && _); [|apply hubOnly_ret].
    apply hubOnly_broadcastA2AEvent.
Qed.

Lemma hubOnly_JSONparse (text : string) : hubOnly (JSONparse text).
Proof. intros s. unfold JSONparse. destruct (parse text); apply sameStores_refl. Qed.

Lemma hubOnly_sessionLine (agentId line : string) : hubOnly (sessionLine agentId line).
Proof.
  unfold sessionLine. apply hubOnly_try, hubOnly_bind; [apply hubOnly_JSONparse|].
  intros obj. apply hubOnly_processSessionLine.
Qed.

Lemma hubOnly_sessionLines (agentId : string) (lines : list string) :
  hubOnly (forEach (sessionLine agentId) lines).
Proof. apply hubOnly_forEach. intros line. apply hubOnly_sessionLine. Qed.

(** ** Text *)

Lemma append_cons (x : ascii) (a b : string) :
  String x a +:+ b = String x (a +:+ b).
Proof. reflexivity. Qed.

Lemma append_assoc (a b c : string) : (a +:+ b) +:+ c = a +:+ (b +:+ c).
Proof. induction a as [|x a IH]; [reflexivity|]. rewrite !append_cons, IH. reflexivity. Qed.

Lemma length_append (a b : string) :
  String.length (a +:+ b) = String.length a + String.length b.
Proof.
  induction a as [|x a IH]; [reflexivity|].
  rewrite append_cons. cbn [String.length]. rewrite IH. reflexivity.
Qed.

Lemma substring_whole (b : string) : String.substring 0 (String.length b) b = b.
Proof. induction b as [|x b IH]; [reflexivity|]. cbn. f_equal. exact IH. Qed.

Lemma substring_skip (a b : string) (m : nat) :
  String.substring (String.length a) m (a +:+ b) = String.substring 0 m b.
Proof. induction a as [|x a IH]; [reflexivity|]. rewrite append_cons. cbn. apply IH. Qed.

Lemma readRange_appended (a b : string) :
  readRange (String.length a) (String.length (a +:+ b)) (a +:+ b) = b.
Proof.
  unfold readRange. rewrite length_append, substring_skip.
  replace (String.length a + String.length b - String.length a)
    with (String.length b) by lia.
  apply substring_whole.
Qed.

Lemma splitLines_nonempty (t : string) : splitLines t <> [].
Proof.
  destruct t as [|c t]; cbn; [discriminate|].
  destruct (isNewline c); [discriminate|].
  destruct (splitLines t); discriminate.
Qed.

Lemma splitLines_append (a b : string) :
  splitLines (a +:+ nl +:+ b) = splitLines a ++ splitLines b.
Proof.
  induction a as [|c a IH]; [reflexivity|].
  rewrite append_cons. cbn [splitLines]. destruct (isNewline c).
  - rewrite IH. reflexivity.
  - rewrite IH. pose proof (splitLines_nonempty a) as Hne.
    destruct (splitLines a) as [|cur rest]; [congruence|]. reflexivity.
Qed.

Lemma splitLines_unterminated (t : string) :
  unterminated t = true -> splitLines t = [t].
Proof.
  induction t as [|c t IH]; [reflexivity|].
  cbn. destruct (isNewline c); [discriminate|]. cbn. intros H.
  rewrite IH by assumption. reflexivity.
Qed.

Lemma linesOf_terminated (m : string) :
  linesOf (m +:+ nl) = List.filter nonblank (splitLines m).
Proof.
  unfold linesOf. replace (m +:+ nl) with (m +:+ nl +:+ "") by reflexivity.
  rewrite splitLines_append, List.filter_app. cbn. apply app_nil_r.
Qed.

Lemma linesOf_last (mid last : string) :
  mid = "" \/ (exists m, mid = m +:+ nl) ->
  unterminated last = true ->
  nonblank last = true ->
  linesOf (mid +:+ last) = linesOf mid ++ [last].
Proof.
  intros [-> | [m ->]] Hun Hnb.
  - unfold linesOf. change ("" +:+ last) with last.
    rewrite splitLines_unterminated by assumption.
    cbn. rewrite Hnb. reflexivity.
  - rewrite linesOf_terminated. unfold linesOf.
    rewrite append_assoc, splitLines_append, List.filter_app.
    rewrite (splitLines_unterminated last) by assumption.
    cbn. rewrite Hnb. reflexivity.
Qed.

(** ** The tailers *)

Lemma bind_ret_tt (c : M unit) (s : state) : (c >> ret tt) s = c s.
Proof. unfold bind, ret. destruct (c s) as [[[]|] s']; reflexivity. Qed.

Lemma tailSessionFile_run (p agentId content : string) (s : state) :
  files s !! p = Some content ->
  tailSessionFile (VStr p) agentId s
  = (Ok tt,
     if String.length content <=? default 0 (sessionFileOffsets s !! p)
     then withSessionFileOffsets (<[p := String.length content]> (sessionFileOffsets s)) s
     else withStreams (streams s ++ [SessionRead p (default 0 (sessionFileOffsets s !! p))
                                       (String.length content) agentId]) s).
Proof.
  intros Hf. unfold tailSessionFile, tryReturn, statSync. rewrite Hf.
  unfold bind, offsetOf. cbn [fst snd].
  destruct (String.length content <=? default 0 (sessionFileOffsets s !! p)); reflexivity.
Qed.

(** A whole tail when the file grew: the bytes from the stored offset to
    the size are split and every non-blank piece is handed on; the offset
    becomes the size. *)
Lemma tail_reads (p agentId content : string) (s : state) :
  files s !! p = Some content ->
  streams s = [] ->
  default 0 (sessionFileOffsets s !! p) < String.length content ->
  tail p agentId s
  = forEach (sessionLine agentId)
      (linesOf (readRange (default 0 (sessionFileOffsets s !! p))
                  (String.length content) content))
      (withSessionFileOffsets (<[p := String.length content]> (sessionFileOffsets s)) s).
Proof.
  intros Hf Hst Hlt. unfold tail, bind at 1.
  rewrite (tailSessionFile_run p agentId content s Hf).
  destruct (Nat.leb_spec (String.length content) (default 0 (sessionFileOffsets s !! p)));
    [lia|].
  unfold runStreams. destruct s as [fs cf w cl les lsu sfo st tr]. cbn in *. subst st.
  cbn [app forEach streamEnd]. rewrite bind_ret_tt.
  unfold sessionStreamEnd, bind at 1, streamData. cbn [files withStreams]. rewrite Hf.
  reflexivity.
Qed.

(** A whole tail when the file did not grow: the offset becomes the size
    and nothing is read. *)
Lemma tail_idle (p agentId content : string) (s : state) :
  files s !! p = Some content ->
  streams s = [] ->
  String.length content <= default 0 (sessionFileOffsets s !! p) ->
  tail p agentId s
  = (Ok tt, withSessionFileOffsets (<[p := String.length content]> (sessionFileOffsets s)) s).
Proof.
  intros Hf Hst Hle. unfold tail, bind at 1.
  rewrite (tailSessionFile_run p agentId content s Hf).
  destruct (Nat.leb_spec (String.length content) (default 0 (sessionFileOffsets s !! p)));
    [|lia].
  unfold runStreams. destruct s as [fs cf w cl les lsu sfo st tr]. cbn in *. subst st.
  reflexivity.
Qed.

Lemma tail_offset (p agentId content : string) (s : state) :
  files s !! p = Some content ->
  streams s = [] ->
  sessionFileOffsets (exec (tail p agentId) s) !! p = Some (String.length content).
Proof.
  intros Hf Hst. unfold exec.
  destruct (Nat.le_gt_cases (String.length content) (default 0 (sessionFileOffsets s !! p))).
  - rewrite (tail_idle p agentId content s) by assumption. cbn. apply lookup_insert_eq.
  - rewrite (tail_reads p agentId content s) by assumption.
    destruct (hubOnly_sessionLines agentId
                (linesOf (readRange (default 0 (sessionFileOffsets s !! p))
                            (String.length content) content))
                (withSessionFileOffsets (<[p := String.length content]> (sessionFileOffsets s)) s))
      as (_ & _ & _ & _ & _ & Ho & _).
    rewrite Ho. cbn. apply lookup_insert_eq.
Qed.

Lemma forEach_app {A} (f : A -> M unit) (l1 l2 : list A) (s : state) :
  forEach f (l1 ++ l2) s = (forEach f l1 >> forEach f l2) s.
Proof.
  revert s. induction l1 as [|x l1 IH]; intros s; [reflexivity|].
  cbn [app forEach]. unfold bind. destruct (f x s) as [[[]|] s']; [|reflexivity].
  rewrite IH. reflexivity.
Qed.

Lemma nonblank_length (t : string) : nonblank t = true -> 0 < String.length t.
Proof. destruct t; [discriminate|]. cbn. lia. Qed.

(** The events tailer does the same on the events file. *)
Lemma tailEvents_reads (content : string) (s : state) :
  files s !! EVENTS_FILE = Some content ->
  streams s = [] ->
  lastEventSize s < String.length content ->
  tailEvents s
  = forEach eventLine
      (linesOf (readRange (lastEventSize s) (String.length content) content))
      (withLastEventSize (String.length content) s).
Proof.
  intros Hf Hst Hlt. unfold tailEvents, bind at 1, eventsFileChanged. rewrite Hf.
  destruct (Nat.leb_spec (String.length content) (lastEventSize s)); [lia|].
  unfold runStreams, createReadStream.
  destruct s as [fs cf w cl les lsu sfo st tr]. cbn in *. subst st.
  cbn [app forEach streamEnd]. rewrite bind_ret_tt.
  unfold eventsStreamEnd, bind at 1, streamData. cbn [files withStreams]. rewrite Hf.
  reflexivity.
Qed.

Lemma tailEvents_idle (content : string) (s : state) :
  files s !! EVENTS_FILE = Some content ->
  streams s = [] ->
  String.length content <= lastEventSize s ->
  tailEvents s = (Ok tt, withLastEventSize (String.length content) s).
Proof.
  intros Hf Hst Hle. unfold tailEvents, bind at 1, eventsFileChanged. rewrite Hf.
  destruct (Nat.leb_spec (String.length content) (lastEventSize s)); [|lia].
  unfold runStreams. destruct s as [fs cf w cl les lsu sfo st tr]. cbn in *. subst st.
  reflexivity.
Qed.

(** C1 (as the code has it). A tail consumes every byte up to the size of
    the file: with the stored offset at the start of [mid] (whole lines)
    and the file ending in [last], a non-blank piece with no terminator,
    the call hands the lines of [mid] and then [last] itself to the line
    handler and sets the offset to the size of the file, past [last]; the
    next call, once the file has grown by [more], reads [more] only.  The
    events tailer likewise hands on every non-blank piece of the bytes
    from [lastEventSize] to the size and moves [lastEventSize] there. *)
Theorem tail_takes_unterminated_line
    (p agentId pre mid last : string) (s : state) :
  files s !! p = Some (pre +:+ mid +:+ last) ->
  streams s = [] ->
  default 0 (sessionFileOffsets s !! p) = String.length pre ->
  mid = "" \/ (exists m, mid = m +:+ nl) ->
  unterminated last = true ->
  nonblank last = true ->
  tail p agentId s
  = (forEach (sessionLine agentId) (linesOf mid) >> sessionLine agentId last)
      (withSessionFileOffsets
         (<[p := String.length (pre +:+ mid +:+ last)]> (sessionFileOffsets s)) s) /\
  sessionFileOffsets (exec (tail p agentId) s) !! p
  = Some (String.length (pre +:+ mid +:+ last)) /\
  (forall (more : string) (s2 : state),
    files s2 !! p = Some ((pre +:+ mid +:+ last) +:+ more) ->
    streams s2 = [] ->
    sessionFileOffsets s2 !! p = Some (String.length (pre +:+ mid +:+ last)) ->
    more <> "" ->
    tail p agentId s2
    = forEach (sessionLine agentId) (linesOf more)
        (withSessionFileOffsets
           (<[p := String.length ((pre +:+ mid +:+ last) +:+ more)]>
              (sessionFileOffsets s2)) s2)) /\
  forall events : string,
    files s !! EVENTS_FILE = Some events ->
    lastEventSize s < String.length events ->
    tailEvents s
    = forEach eventLine
        (linesOf (readRange (lastEventSize s) (String.length events) events))
        (withLastEventSize (String.length events) s).
Proof.
  intros Hf Hst Hoff Hmid Hun Hnb. split; [|split; [|split]];
    [| | |intros events He Hlt; apply tailEvents_reads; assumption].
  - rewrite (tail_reads p agentId _ s Hf Hst).
    + rewrite Hoff, readRange_appended, linesOf_last by assumption.
      rewrite forEach_app. unfold bind.
      destruct (forEach (sessionLine agentId) (linesOf mid) _) as [[[]|] s'];
        [|reflexivity].
      cbn [forEach]. apply bind_ret_tt.
    + rewrite Hoff, !length_append. apply nonblank_length in Hnb. lia.
  - apply tail_offset; assumption.
  - intros more s2 Hf2 Hst2 Hoff2 Hmore.
    rewrite (tail_reads p agentId _ s2 Hf2 Hst2).
    + rewrite Hoff2. cbn [from_option id]. rewrite readRange_appended. reflexivity.
    + rewrite Hoff2. cbn [from_option id]. rewrite (length_append _ more).
      destruct more; [congruence|]. cbn. lia.
Qed.


Lemma sessionLine_unparsable (agentId line : string) (s : state) :
  parse line = None -> sessionLine agentId line s = (Ok tt, s).
Proof. intros H. unfold sessionLine, try_, bind, JSONparse. rewrite H. reflexivity. Qed.

Lemma forEach_sessionLine_parses (agentId : string) (lines : list string) (s : state) :
  forEach (sessionLine agentId) lines s
  = forEach (sessionLine agentId) (List.filter parses lines) s.
Proof.
  revert s. induction lines as [|line lines IH]; intros s; [reflexivity|].
  cbn [List.filter]. unfold parses at 1.
  destruct (parse line) eqn:Hp.
  - cbn [forEach]. unfold bind.
    destruct (sessionLine agentId line s) as [[[]|] s']; [apply IH|reflexivity].
  - cbn [forEach]. unfold bind. rewrite sessionLine_unparsable by assumption. apply IH.
Qed.

(** C9. A line of the tailed region that is not valid JSON is skipped: it
    has no effect at all, so the tail does what it would do without the
    malformed lines; the offset still becomes the size of the file, and the
    next tail, once the file has grown by [more], reads [more] only, so the
    malformed line is not read again. *)
Theorem malformed_line_skipped (p agentId content : string) (s : state) :
  files s !! p = Some content ->
  streams s = [] ->
  default 0 (sessionFileOffsets s !! p) < String.length content ->
  (forall (line : string) (s' : state),
     parse line = None -> sessionLine agentId line s' = (Ok tt, s')) /\
  tail p agentId s
  = forEach (sessionLine agentId)
      (List.filter parses
         (linesOf (readRange (default 0 (sessionFileOffsets s !! p))
                     (String.length content) content)))
      (withSessionFileOffsets (<[p := String.length content]> (sessionFileOffsets s)) s) /\
  sessionFileOffsets (exec (tail p agentId) s) !! p = Some (String.length content) /\
  forall (more : string) (s2 : state),
    files s2 !! p = Some (content +:+ more) ->
    streams s2 = [] ->
    sessionFileOffsets s2 !! p = Some (String.length content) ->
    more <> "" ->
    tail p agentId s2
    = forEach (sessionLine agentId) (linesOf more)
        (withSessionFileOffsets
           (<[p := String.length (content +:+ more)]> (sessionFileOffsets s2)) s2).
Proof.
  intros Hf Hst Hlt. split; [|split; [|split]].
  - intros line s' Hp. apply sessionLine_unparsable, Hp.
  - rewrite (tail_reads p agentId content s Hf Hst Hlt).
    apply forEach_sessionLine_parses.
  - apply tail_offset; assumption.
  - intros more s2 Hf2 Hst2 Hoff2 Hmore.
    rewrite (tail_reads p agentId _ s2 Hf2 Hst2).
    + rewrite Hoff2. cbn [from_option id]. rewrite readRange_appended. reflexivity.
    + rewrite Hoff2. cbn [from_option id]. rewrite length_append.
      destruct more; [congruence|]. cbn. lia.
Qed.

(** ** The poller *)

Lemma get_readable (v : value) (k : string) (s : state) :
  readable v = true -> get v k s = (Ok (prop v k), s).
Proof. destruct v; try discriminate; reflexivity. Qed.


Lemma tailSessionFile_frame (file : value) (agentId : string) (s : state) :
  lastSessionUpdates (exec (tailSessionFile file agentId) s) = lastSessionUpdates s /\
  files (exec (tailSessionFile file agentId) s) = files s /\
  trace (exec (tailSessionFile file agentId) s) = trace s /\
  commsFile (exec (tailSessionFile file agentId) s) = commsFile s.
Proof.
  unfold exec, tailSessionFile, tryReturn, statSync.
  destruct file; try (repeat split; fail).
  destruct (files s !! s0); [|repeat split].
  unfold bind, offsetOf. cbn [fst snd].
  destruct (_ <=? _); repeat split.
Qed.



Lemma refresh_step (agentId k : string) (v : value)
    (known : gmap string value) (s : state) :
  readable v = true ->
  lastSessionUpdates s !! agentId = Some known ->
  refresh agentId (k, v) s
  = if changed known (k, v)
    then (if truthy (prop v "sessionFile")
          then tailSessionFile (prop v "sessionFile") agentId
          else ret tt)
           (withLastSessionUpdates
              (<[agentId := <[k := prop v "updatedAt"]> known]> (lastSessionUpdates s)) s)
    else (Ok tt, s).
Proof.
  intros Hv Hknown. unfold refresh, bind, lastUpdate, setUpdate. rewrite Hknown.
  cbn [fst snd]. rewrite get_readable by assumption.
  fold (changed known (k, v)). unfold changed. cbn [fst snd].
  destruct (truthy (prop v "updatedAt") && _); [|reflexivity].
  rewrite Hknown. reflexivity.
Qed.







Lemma baseline_step (agentId k : string) (v : value)
    (known : gmap string value) (s : state) :
  readable v = true ->
  lastSessionUpdates s !! agentId = Some known ->
  baseline agentId (k, v) s
  = (Ok tt,
     withSessionFileOffsets
       (seek (files s) (sessionFileOffsets s) (prop v "sessionFile"))
       (withLastSessionUpdates
          (<[agentId := <[k := prop v "updatedAt"]> known]> (lastSessionUpdates s)) s)).
Proof.
  intros Hv Hknown. unfold baseline, bind, setUpdate. cbn [fst snd].
  rewrite get_readable by assumption. rewrite Hknown.
  unfold seek, try_, bind, statSync, setOffset, ret.
  destruct s as [fs cf w cl les lsu sfo st tr]. cbn in *.
  destruct (prop v "sessionFile") as [| |b|x|p|l|l]; cbn; try reflexivity.
  - destruct b; reflexivity.
  - destruct (negb (PrimFloat.eqb x 0) && PrimFloat.eqb x x); reflexivity.
  - destruct (negb (String.eqb p "")); cbn; destruct (fs !! p); cbn; reflexivity.
Qed.

Lemma baseline_loop (agentId : string) (entries : list (string * value))
    (known : gmap string value) (s : state) :
  Forall (fun e => readable e.2 = true) entries ->
  lastSessionUpdates s !! agentId = Some known ->
  forEach (baseline agentId) entries s
  = (Ok tt,
     withSessionFileOffsets (seeked (files s) (sessionFileOffsets s) entries)
       (withLastSessionUpdates
          (<[agentId := baselined known entries]> (lastSessionUpdates s)) s)).
Proof.
  intros Hread. revert known s.
  induction Hread as [|[k v] entries Hv _ IH]; intros known s Hknown.
  - cbn. rewrite insert_id by assumption. destruct s; reflexivity.
  - cbn [fst snd] in *.
    erewrite forEach_cons_ok by (apply baseline_step; eassumption).
    rewrite (IH (<[k := prop v "updatedAt"]> known)).
    + cbn [baselined seeked fst snd]. destruct s; cbn.
      rewrite insert_insert_eq. reflexivity.
    + destruct s; cbn. apply lookup_insert_eq.
Qed.

Lemma baselined_other (k : string) (entries : list (string * value))
    (known : gmap string value) :
  k ∉ map fst entries -> baselined known entries !! k = known !! k.
Proof.
  revert known. induction entries as [|[k' v] entries IH]; intros known Hk; [reflexivity|].
  cbn in Hk. apply not_elem_of_cons in Hk as [Hne Hk].
  cbn [baselined fst snd]. rewrite IH by assumption.
  apply lookup_insert_ne. congruence.
Qed.

Lemma baselined_lookup (k : string) (v : value) (entries : list (string * value))
    (known : gmap string value) :
  NoDup (map fst entries) ->
  In (k, v) entries ->
  baselined known entries !! k = Some (prop v "updatedAt").
Proof.
  revert known. induction entries as [|[k' v'] entries IH]; intros known Hnd Hin;
    [destruct Hin|].
  cbn in Hnd. apply NoDup_cons in Hnd as [Hnotin Hnd].
  cbn [baselined fst snd]. destruct Hin as [[= -> ->] | Hin].
  - rewrite baselined_other by assumption. apply lookup_insert_eq.
  - apply IH; assumption.
Qed.




Lemma pollAgent_parsed (agentId data : string) (sessions : value) (s : state) :
  files s !! sessionsPath agentId = Some data ->
  parse data = Some sessions ->
  pollAgent agentId s = pollSessions agentId sessions s.
Proof.
  intros Hf Hp. unfold pollAgent, tryReturn, JSONparse. rewrite Hf, Hp. reflexivity.
Qed.


(** * Further properties *)

(** ** The extractor, case by case *)

Lemma substring_length (n : nat) (t : string) :
  String.length (String.substring 0 n t) = Nat.min n (String.length t).
Proof.
  revert t. induction n as [|n IH]; intros [|c t]; cbn; try reflexivity.
  rewrite IH. reflexivity.
Qed.

Lemma substring_short (n : nat) (t : string) :
  String.length t <= n -> String.substring 0 n t = t.
Proof.
  revert t. induction n as [|n IH]; intros [|c t]; cbn; intros H;
    try reflexivity; try lia.
  rewrite IH by lia. reflexivity.
Qed.

Lemma excerpt_string (v : value) (t : string) (s : state) :
  orElse v (VStr "") = VStr t ->
  excerpt v s = (Ok (VStr (String.substring 0 200 t)), s).
Proof. intros H. unfold excerpt. rewrite H. reflexivity. Qed.

(** X1. A tool call named sessions_spawn whose task is a string (or is
    missing or falsy, which counts as the empty string) is published as one
    agent.spawn event from the owning agent, stamped with the record's
    timestamp, addressed to [agentId], else [label], else subagent, and
    carrying the first 200 characters of the task: the whole task when it
    has at most 200 characters, exactly 200 characters otherwise. *)
Theorem spawn_request_event
    (obj block : value) (agentId t : string) (s : state) :
  prop block "type" = VStr "toolCall" ->
  prop block "name" = VStr "sessions_spawn" ->
  orElse (prop (argumentsOf block) "task") (VStr "") = VStr t ->
  exists ev,
    toolCall obj agentId block s = broadcastA2AEvent ev s /\
    prop ev "event" = VStr "agent.spawn" /\
    prop ev "fromAgent" = VStr agentId /\
    prop ev "ts" = prop obj "timestamp" /\
    prop ev "toAgent"
    = orElse (prop (argumentsOf block) "agentId")
        (orElse (prop (argumentsOf block) "label") (VStr "subagent")) /\
    prop ev "task" = VStr (String.substring 0 200 t) /\
    String.length (String.substring 0 200 t) = Nat.min 200 (String.length t) /\
    (String.length t <= 200 -> prop ev "task" = VStr t).
Proof.
  intros Hty Hname Htask.
  destruct block as [| | | | | |fb]; try discriminate.
  eexists. split.
  - unfold toolCall. cbn [get]. unfold bind at 1, ret at 1.
    rewrite Hty, Hname.
    change (isStr (VStr "toolCall") "toolCall") with true.
    change (isStr (VStr "sessions_spawn") "sessions_spawn") with true.
    cbn [negb andb]. unfold bind at 1.
    fold (argumentsOf (VObj fb)).
    rewrite (excerpt_string _ t s Htask). reflexivity.
  - repeat split; try (rewrite prop_object; [reflexivity | distinct_keys]).
    + apply substring_length.
    + intros Hlen. rewrite prop_object; [|distinct_keys].
      cbn. rewrite substring_short by assumption. reflexivity.
Qed.

(** X2. A tool call named sessions_send whose message is a string (or is
    missing or falsy) is published as one agent.send event from the owning
    agent, addressed to [sessionKey], else [label], else a question mark,
    and carrying the first 200 characters of the message. *)
Theorem send_request_event
    (obj block : value) (agentId t : string) (s : state) :
  prop block "type" = VStr "toolCall" ->
  prop block "name" = VStr "sessions_send" ->
  orElse (prop (argumentsOf block) "message") (VStr "") = VStr t ->
  exists ev,
    toolCall obj agentId block s = broadcastA2AEvent ev s /\
    prop ev "event" = VStr "agent.send" /\
    prop ev "fromAgent" = VStr agentId /\
    prop ev "ts" = prop obj "timestamp" /\
    prop ev "toAgent"
    = orElse (prop (argumentsOf block) "sessionKey")
        (orElse (prop (argumentsOf block) "label") (VStr "?")) /\
    prop ev "message" = VStr (String.substring 0 200 t) /\
    String.length (String.substring 0 200 t) = Nat.min 200 (String.length t) /\
    prop ev "task" = VUndef.
Proof.
  intros Hty Hname Hmsg.
  destruct block as [| | | | | |fb]; try discriminate.
  eexists. split.
  - unfold toolCall. cbn [get]. unfold bind at 1, ret at 1.
    rewrite Hty, Hname.
    change (isStr (VStr "toolCall") "toolCall") with true.
    change (isStr (VStr "sessions_send") "sessions_spawn") with false.
    change (isStr (VStr "sessions_send") "sessions_send") with true.
    cbn [negb andb]. unfold bind at 1.
    fold (argumentsOf (VObj fb)).
    rewrite (excerpt_string _ t s Hmsg). reflexivity.
  - repeat split; try (rewrite prop_object; [reflexivity | distinct_keys]).
    apply substring_length.
Qed.

Lemma toolCall_other (obj block : value) (agentId : string) (s : state) :
  readable block = true ->
  prop block "type" <> VStr "toolCall" \/
  (prop block "name" <> VStr "sessions_spawn" /\ prop block "name" <> VStr "sessions_send") ->
  toolCall obj agentId block s = (Ok tt, s).
Proof.
  intros Hr Hother. unfold toolCall, bind. rewrite get_readable by assumption.
  destruct Hother as [Hty | [Hsp Hse]].
  - apply isStr_false in Hty. rewrite Hty. reflexivity.
  - apply isStr_false in Hsp, Hse. rewrite Hsp, Hse.
    destruct (isStr (prop block "type") "toolCall"); reflexivity.
Qed.

Lemma forEach_unchanged {A} (f : A -> M unit) (l : list A) (s : state) :
  Forall (fun x => f x s = (Ok tt, s)) l -> forEach f l s = (Ok tt, s).
Proof.
  induction 1 as [|x l Hx _ IH]; [reflexivity|].
  cbn [forEach]. unfold bind. rewrite Hx. exact IH.
Qed.

(** X3. A record the extractor does not recognise has no effect at all:
    one whose [type] is not message, whose [message] is missing, whose
    role is neither assistant nor toolResult, an assistant message whose
    content is not an array or holds only blocks that are not spawn or send
    tool calls, or a tool result of another tool. *)
Theorem unrecognised_record_ignored (obj : value) (agentId : string) (s : state) :
  readable obj = true ->
  prop obj "type" <> VStr "message" \/
  truthy (prop obj "message") = false \/
  (prop (prop obj "message") "role" <> VStr "assistant" /\
   prop (prop obj "message") "role" <> VStr "toolResult") \/
  (prop (prop obj "message") "role" = VStr "assistant" /\
   isArray (prop (prop obj "message") "content") = false) \/
  (prop (prop obj "message") "role" = VStr "assistant" /\
   Forall (fun block =>
             readable block = true /\
             (prop block "type" <> VStr "toolCall" \/
              (prop block "name" <> VStr "sessions_spawn" /\
               prop block "name" <> VStr "sessions_send")))
          (elements (prop (prop obj "message") "content"))) \/
  (prop (prop obj "message") "role" = VStr "toolResult" /\
   prop (prop obj "message") "toolName" <> VStr "sessions_spawn" /\
   prop (prop obj "message") "toolName" <> VStr "sessions_send") ->
  processSessionLine obj agentId s = (Ok tt, s).
Proof.
  intros Hr Hcase. unfold processSessionLine. unfold bind at 1.
  rewrite get_readable by assumption.
  destruct (isStr (prop obj "type") "message") eqn:Hty; [|reflexivity].
  destruct (truthy (prop obj "message")) eqn:Hmsg; [|reflexivity].
  cbn [negb]. apply isStr_true in Hty.
  destruct Hcase as [H | [H | [[Ha Ht] | [[Ha Harr] | [[Ha Hblocks] | (Ht & Hsp & Hse)]]]]];
    try congruence.
  - apply isStr_false in Ha, Ht. rewrite Ha, Ht. reflexivity.
  - rewrite Ha, Harr. reflexivity.
  - rewrite Ha.
    change (isStr (VStr "assistant") "assistant") with true.
    change (isStr (VStr "assistant") "toolResult") with false.
    cbn [andb]. unfold bind.
    destruct (isArray (prop (prop obj "message") "content")); [|reflexivity].
    rewrite forEach_unchanged; [reflexivity|].
    eapply Forall_impl; [exact Hblocks|]. intros block [Hrb Hother].
    apply toolCall_other; assumption.
  - rewrite Ht. apply isStr_false in Hsp, Hse. rewrite Hsp, Hse. reflexivity.
Qed.

Lemma toolCall_rejected (obj block : value) (agentId : string) (s : state) :
  rejected block = true -> toolCall obj agentId block s = (Throw, s).
Proof.
  unfold rejected. intros H. apply orb_true_iff in H as [H | H].
  - destruct block; try discriminate; reflexivity.
  - apply andb_true_iff in H as [Hty H].
    assert (Hr : readable block = true).
    { destruct block; try discriminate Hty; reflexivity. }
    unfold toolCall, bind. rewrite get_readable by assumption. rewrite Hty. cbn [negb].
    fold (argumentsOf block).
    apply orb_true_iff in H as [H | H]; apply andb_true_iff in H as [Hname Hbad].
    + rewrite Hname. cbn [negb andb]. unfold excerpt.
      destruct (orElse (prop (argumentsOf block) "task") (VStr "")); try discriminate;
        reflexivity.
    + rewrite Hname. apply isStr_true in Hname.
      assert (Hsp : isStr (prop block "name") "sessions_spawn" = false).
      { rewrite Hname. reflexivity. }
      rewrite Hsp. cbn [negb andb]. unfold excerpt.
      destruct (orElse (prop (argumentsOf block) "message") (VStr "")); try discriminate;
        reflexivity.
Qed.

(** X4. In an assistant message, a tool-call block on which the handler
    throws (a [null] block, or a spawn or send call whose task or message
    is truthy and not a string) ends the processing of the record: the
    blocks before it are handled, those after it never are, and the line
    handler swallows the exception. *)
Theorem rejected_block_drops_rest
    (line : string) (obj bad : value) (before rest : list value)
    (agentId : string) (s : state) :
  parse line = Some obj ->
  prop obj "type" = VStr "message" ->
  prop (prop obj "message") "role" = VStr "assistant" ->
  prop (prop obj "message") "content" = VArr (before ++ bad :: rest) ->
  rejected bad = true ->
  processSessionLine obj agentId s
  = (Throw, exec (forEach (toolCall obj agentId) before) s) /\
  sessionLine agentId line s
  = (Ok tt, exec (forEach (toolCall obj agentId) before) s).
Proof.
  intros Hp Hty Hrole Hcontent Hbad.
  assert (E : processSessionLine obj agentId s
              = (Throw, exec (forEach (toolCall obj agentId) before) s)).
  { assert (Hr : readable obj = true).
    { destruct obj; try discriminate Hty; reflexivity. }
    assert (Hm : truthy (prop obj "message") = true).
    { destruct (prop obj "message"); try discriminate Hrole; reflexivity. }
    unfold processSessionLine. unfold bind at 1. rewrite get_readable by assumption.
    rewrite Hty, Hm, Hrole, Hcontent.
    change (isStr (VStr "message") "message") with true.
    change (isStr (VStr "assistant") "assistant") with true.
    cbn [negb andb isArray elements]. unfold bind at 1.
    rewrite forEach_app. unfold bind at 1, exec.
    destruct (forEach (toolCall obj agentId) before s) as [[[]|] s']; [|reflexivity].
    cbn [forEach snd]. unfold bind at 1. rewrite toolCall_rejected by assumption.
    reflexivity. }
  split; [exact E|].
  unfold sessionLine, try_, bind, JSONparse. rewrite Hp, E. reflexivity.
Qed.

(** ** Attribution *)

Lemma emits_ret {A} (P : effect -> Prop) (a : A) : emits P (ret a).
Proof. intros s. exists []. split; [cbn; rewrite app_nil_r; reflexivity | constructor]. Qed.

Lemma emits_throw {A} (P : effect -> Prop) : emits P (@throw A).
Proof. intros s. exists []. split; [cbn; rewrite app_nil_r; reflexivity | constructor]. Qed.

Lemma emits_bind {A B} (P : effect -> Prop) (c : M A) (k : A -> M B) :
  emits P c -> (forall a, emits P (k a)) -> emits P (bind c k).
Proof.
  intros Hc Hk s. unfold bind. destruct (Hc s) as (t1 & E1 & F1).
  destruct (c s) as [[a|] s']; cbn [snd] in *.
  - destruct (Hk a s') as (t2 & E2 & F2). exists (t1 ++ t2). split.
    + rewrite E2, E1, app_assoc. reflexivity.
    + apply Forall_app. split; assumption.
  - exists t1. split; assumption.
Qed.

Lemma emits_try (P : effect -> Prop) (c : M unit) : emits P c -> emits P (try_ c).
Proof. intros Hc s. apply Hc. Qed.

Lemma emits_tryOr {A} (P : effect -> Prop) (c : M A) (d : A) :
  emits P c -> emits P (tryOr c d).
Proof.
  intros Hc s. unfold tryOr. specialize (Hc s).
  destruct (c s) as [[a|] s']; exact Hc.
Qed.

Lemma emits_forEach {A} (P : effect -> Prop) (f : A -> M unit) (l : list A) :
  (forall x, emits P (f x)) -> emits P (forEach f l).
Proof.
  intros Hf. induction l as [|x l IH]; [apply emits_ret|].
  cbn [forEach]. apply emits_bind; [apply Hf | intros _; exact IH].
Qed.

Lemma emits_log (P : effect -> Prop) (e : effect) : P e -> emits P (log e).
Proof. intros He s. exists [e]. split; [reflexivity | repeat constructor; exact He]. Qed.

Lemma emits_get (P : effect -> Prop) (v : value) (k : string) : emits P (get v k).
Proof. destruct v; first [apply emits_throw | apply emits_ret]. Qed.

Lemma emits_sendToClients (P : effect -> Prop) (message : value) :
  (forall c, P (Sent c message)) -> emits P (sendToClients message).
Proof.
  intros Hm s. rewrite sendToClients_run. exists (sends message (clients s)).
  split; [reflexivity|]. unfold sends. apply Forall_map, Forall_forall.
  intros c _. apply Hm.
Qed.

Lemma emits_readComms (P : effect -> Prop) : P CommsRead -> emits P readComms.
Proof.
  intros HP. apply emits_bind; [apply emits_log, HP|]. intros _ s.
  exists []. destruct (commsFile s); cbn; rewrite app_nil_r; split;
    first [reflexivity | constructor].
Qed.

Lemma emits_writeComms (P : effect -> Prop) (comms : value) :
  (forall ok, P (CommsWrite comms ok)) -> emits P (writeComms comms).
Proof.
  intros HP s. unfold writeComms. destruct (commsWritable s).
  - exists [CommsWrite comms true]. split; [reflexivity|]. repeat constructor. apply HP.
  - apply (emits_bind P (log _) (fun _ => throw));
      [apply emits_log, HP | intros _; apply emits_throw].
Qed.

Lemma emits_broadcastA2AEvent (agentId : string) (event : value) :
  isObject event = true ->
  prop event "fromAgent" = VStr agentId ->
  emits (attributed agentId) (broadcastA2AEvent event).
Proof.
  intros Hobj Hfrom. unfold broadcastA2AEvent.
  apply emits_bind.
  { apply emits_sendToClients. intros c. cbn [attributed].
    destruct event; try discriminate. split; [reflexivity|]. exact Hfrom. }
  intros _. apply emits_bind; [apply emits_tryOr, emits_readComms; exact I|].
  intros comms. apply emits_bind.
  { unfold commsEntry. apply emits_bind; [apply emits_get|]. intros ts. apply emits_ret. }
  intros entry. apply emits_bind.
  { destruct comms; first [apply emits_throw | apply emits_ret]. }
  intros l. apply emits_try, emits_writeComms. intros ok. exact I.
Qed.

Lemma emits_excerpt (P : effect -> Prop) (v : value) : emits P (excerpt v).
Proof.
  unfold excerpt. destruct (orElse v (VStr ""));
    first [apply emits_throw | apply emits_ret].
Qed.

Lemma emits_toolCall (obj : value) (agentId : string) (block : value) :
  emits (attributed agentId) (toolCall obj agentId block).
Proof.
  unfold toolCall. apply emits_bind; [apply emits_get|]. intros ty.
  destruct (negb (isStr ty "toolCall")); [apply emits_ret|].
  destruct (negb (isStr (prop block "name") "sessions_spawn")
            && negb (isStr (prop block "name") "sessions_send")); [apply emits_ret|].
  destruct (isStr (prop block "name") "sessions_spawn");
    (apply emits_bind; [apply emits_excerpt|]); intros text;
    (apply emits_broadcastA2AEvent;
     [reflexivity | rewrite prop_object; [reflexivity | distinct_keys]]).
Qed.

Lemma toolResultEvent_from (obj msg : value) (agentId : string) :
  isObject (toolResultEvent obj msg agentId) = true /\
  prop (toolResultEvent obj msg agentId) "fromAgent" = VStr agentId.
Proof.
  unfold toolResultEvent.
  destruct (_ || _); [|destruct (isStr _ _)];
    (split; [reflexivity | rewrite prop_object; [reflexivity | distinct_keys]]).
Qed.

Lemma emits_processSessionLine (obj : value) (agentId : string) :
  emits (attributed agentId) (processSessionLine obj agentId).
Proof.
  unfold processSessionLine. apply emits_bind; [apply emits_get|]. intros ty.
  destruct (negb (isStr ty "message")); [apply emits_ret|].
  destruct (negb (truthy (prop obj "message"))); [apply emits_ret|].
  apply emits_bind.
  - destruct (_ && _); [|apply emits_ret].
    apply emits_forEach. intros block. apply emits_toolCall.
  - intros _. destruct (_ && _); [|apply emits_ret].
    apply emits_broadcastA2AEvent; apply toolResultEvent_from.
Qed.

Lemma emits_sessionLines (agentId : string) (lines : list string) :
  emits (attributed agentId) (forEach (sessionLine agentId) lines).
Proof.
  apply emits_forEach. intros line. unfold sessionLine.
  apply emits_try, emits_bind.
  - intros s. unfold JSONparse. exists [].
    destruct (parse line); cbn; rewrite app_nil_r; split;
      first [reflexivity | constructor].
  - intros obj. apply emits_processSessionLine.
Qed.

Lemma tail_missing (p agentId : string) (s : state) :
  files s !! p = None -> streams s = [] -> tail p agentId s = (Ok tt, s).
Proof.
  intros Hf Hst. unfold tail, bind at 1, tailSessionFile, tryReturn, statSync.
  rewrite Hf. unfold runStreams. rewrite Hst. cbn.
  destruct s; cbn in *; subst; reflexivity.
Qed.

(** X5. Whatever a session file holds, every message a tail of it for
    agent [agentId] sends is an [agent_comms] message whose event has
    [fromAgent] equal to [agentId]: a tail never sends anything else and
    never attributes an event to another agent. *)
Theorem tailed_events_attributed (p agentId : string) (s : state) :
  streams s = [] ->
  exists t,
    trace (exec (tail p agentId) s) = trace s ++ t /\
    Forall (attributed agentId) t.
Proof.
  intros Hst. unfold exec.
  destruct (files s !! p) as [content|] eqn:Hf.
  - destruct (Nat.le_gt_cases (String.length content)
                (default 0 (sessionFileOffsets s !! p))) as [Hle | Hlt].
    + rewrite (tail_idle p agentId content s Hf Hst Hle). exists [].
      cbn. rewrite app_nil_r. split; [reflexivity | constructor].
    + rewrite (tail_reads p agentId content s Hf Hst Hlt).
      destruct (emits_sessionLines agentId
                  (linesOf (readRange (default 0 (sessionFileOffsets s !! p))
                              (String.length content) content))
                  (withSessionFileOffsets
                     (<[p := String.length content]> (sessionFileOffsets s)) s))
        as (t & E & F).
      exists t. split; [exact E | exact F].
  - rewrite (tail_missing p agentId s Hf Hst). exists [].
    cbn. rewrite app_nil_r. split; [reflexivity | constructor].
Qed.

(** ** The hub at its edges *)


Lemma backfillComms_loop (ws : nat) (l : list value) (s : state) :
  exec (forEach (fun comm =>
                   let! details := get comm "details" in
                   send ws (object [("type", VStr "agent_comms");
                                    ("data", orElse details comm);
                                    ("backfill", VBool true)])) l) s
  = withTrace (trace s ++ map (Sent ws) (map commsMessage (readablePrefix l))) s.
Proof.
  revert s. induction l as [|comm l IH]; intros s.
  - cbn. rewrite app_nil_r, withTrace_same. reflexivity.
  - unfold exec in *. cbn [forEach readablePrefix]. unfold bind at 1.
    destruct (readable comm) eqn:Hr.
    + unfold bind at 1. rewrite get_readable by assumption.
      unfold send, log. rewrite IH. cbn. rewrite <- app_assoc. reflexivity.
    + destruct comm; try discriminate; cbn; rewrite app_nil_r, withTrace_same;
        reflexivity.
Qed.

Lemma exec_bind {A B} (c : M A) (k : A -> M B) (s : state) :
  exec (bind c k) s
  = match c s with
    | (Ok a, s') => exec (k a) s'
    | (Throw, s') => s'
    end.
Proof. unfold exec, bind. destruct (c s) as [[a|] s']; reflexivity. Qed.

Lemma backfillComms_any (ws : nat) (s : state) :
  try_ (backfillComms ws) s
  = (Ok tt, withTrace (trace s ++ [CommsRead]
                         ++ map (Sent ws) (commsBackfill (commsFile s))) s).
Proof.
  unfold try_. f_equal. change ((backfillComms ws s).2) with (exec (backfillComms ws) s).
  unfold backfillComms. rewrite exec_bind.
  unfold readComms, bind at 1, log.
  destruct s as [fs cf w cl les lsu sfo st tr]. cbn [commsFile withTrace trace].
  destruct cf as [| |v]; try reflexivity.
  rewrite exec_bind. unfold recentComms.
  destruct v; try reflexivity.
  unfold ret. rewrite backfillComms_loop. cbn. rewrite <- app_assoc. reflexivity.
Qed.



Lemma accept_any (ws : nat) (s : state) :
  accept ws s
  = (Ok tt,
     withTrace (trace s
                ++ map (Sent ws) (eventsBackfill (files s))
                ++ [CommsRead]
                ++ map (Sent ws) (commsBackfill (commsFile s))
                ++ [Sent ws completeMessage])
       (withClients (clients s ++ [{| cid := ws; ready := OPEN |}]) s)).
Proof.
  unfold accept, connection. unfold bind at 1. rewrite backfillEvents_run.
  unfold bind at 1. rewrite backfillComms_any.
  destruct s. cbn. unfold send, log. cbn. rewrite <- !app_assoc. reflexivity.
Qed.


(** ** Tails over a growing file *)

Lemma hubLocal_ret {A} (a : A) : hubLocal (ret a).
Proof. intros fs o s. reflexivity. Qed.

Lemma hubLocal_throw {A} : hubLocal (@throw A).
Proof. intros fs o s. reflexivity. Qed.

Lemma hubLocal_bind {A B} (c : M A) (k : A -> M B) :
  hubLocal c -> (forall a, hubLocal (k a)) -> hubLocal (bind c k).
Proof.
  intros Hc Hk fs o s. unfold bind. rewrite Hc.
  destruct (c s) as [[a|] s']; cbn [fst snd]; [apply Hk | reflexivity].
Qed.

Lemma hubLocal_try (c : M unit) : hubLocal c -> hubLocal (try_ c).
Proof. intros Hc fs o s. unfold try_. rewrite Hc. reflexivity. Qed.

Lemma hubLocal_tryOr {A} (c : M A) (d : A) : hubLocal c -> hubLocal (tryOr c d).
Proof.
  intros Hc fs o s. unfold tryOr. rewrite Hc.
  destruct (c s) as [[a|] s']; reflexivity.
Qed.

Lemma hubLocal_forEach {A} (f : A -> M unit) (l : list A) :
  (forall x, hubLocal (f x)) -> hubLocal (forEach f l).
Proof.
  intros Hf. induction l as [|x l IH]; [apply hubLocal_ret|].
  cbn [forEach]. apply hubLocal_bind; [apply Hf | intros _; exact IH].
Qed.

Lemma hubLocal_log (e : effect) : hubLocal (log e).
Proof. intros fs o s. reflexivity. Qed.

Lemma hubLocal_get (v : value) (k : string) : hubLocal (get v k).
Proof. destruct v; first [apply hubLocal_throw | apply hubLocal_ret]. Qed.

Lemma hubLocal_sendToClients (message : value) : hubLocal (sendToClients message).
Proof. intros fs o s. rewrite !sendToClients_run. reflexivity. Qed.

Lemma hubLocal_readComms : hubLocal readComms.
Proof.
  apply hubLocal_bind; [apply hubLocal_log|]. intros _ fs o s.
  cbn [relocate withFiles withSessionFileOffsets commsFile].
  destruct (commsFile s); reflexivity.
Qed.

Lemma hubLocal_writeComms (comms : value) : hubLocal (writeComms comms).
Proof.
  intros fs o s. unfold writeComms.
  cbn [relocate withFiles withSessionFileOffsets commsWritable].
  destruct (commsWritable s); reflexivity.
Qed.

Lemma hubLocal_broadcastA2AEvent (event : value) : hubLocal (broadcastA2AEvent event).
Proof.
  unfold broadcastA2AEvent.
  apply hubLocal_bind; [apply hubLocal_sendToClients|]. intros _.
  apply hubLocal_bind; [apply hubLocal_tryOr, hubLocal_readComms|]. intros comms.
  apply hubLocal_bind.
  { unfold commsEntry. apply hubLocal_bind; [apply hubLocal_get|].
    intros ts. apply hubLocal_ret. }
  intros entry. apply hubLocal_bind.
  { destruct comms; first [apply hubLocal_throw | apply hubLocal_ret]. }
  intros l. apply hubLocal_try, hubLocal_writeComms.
Qed.

Lemma hubLocal_excerpt (v : value) : hubLocal (excerpt v).
Proof.
  unfold excerpt. destruct (orElse v (VStr ""));
    first [apply hubLocal_throw | apply hubLocal_ret].
Qed.

Lemma hubLocal_toolCall (obj : value) (agentId : string) (block : value) :
  hubLocal (toolCall obj agentId block).
Proof.
  unfold toolCall. apply hubLocal_bind; [apply hubLocal_get|]. intros ty.
  destruct (negb (isStr ty "toolCall")); [apply hubLocal_ret|].
  destruct (negb (isStr (prop block "name") "sessions_spawn")
            && negb (isStr (prop block "name") "sessions_send")); [apply hubLocal_ret|].
  destruct (isStr (prop block "name") "sessions_spawn");
    (apply hubLocal_bind; [apply hubLocal_excerpt|]);
    intros; apply hubLocal_broadcastA2AEvent.
Qed.

Lemma hubLocal_processSessionLine (obj : value) (agentId : string) :
  hubLocal (processSessionLine obj agentId).
Proof.
  unfold processSessionLine. apply hubLocal_bind; [apply hubLocal_get|]. intros ty.
  destruct (negb (isStr ty "message")); [apply hubLocal_ret|].
  destruct (negb (truthy (prop obj "message"))); [apply hubLocal_ret|].
  apply hubLocal_bind.
  - destruct (_ && _); [|apply hubLocal_ret].
    apply hubLocal_forEach. intros block. apply hubLocal_toolCall.
  - intros _. destruct (_ && _); [|apply hubLocal_ret].
    apply hubLocal_broadcastA2AEvent.
Qed.

Lemma hubLocal_sessionLines (agentId : string) (lines : list string) :
  hubLocal (forEach (sessionLine agentId) lines).
Proof.
  apply hubLocal_forEach. intros line. unfold sessionLine.
  apply hubLocal_try, hubLocal_bind.
  - intros fs o s. unfold JSONparse. destruct (parse line); reflexivity.
  - intros obj. apply hubLocal_processSessionLine.
Qed.

Lemma sessionLines_ok (agentId : string) (lines : list string) (s : state) :
  result (forEach (sessionLine agentId) lines) s = Ok tt.
Proof.
  unfold result. revert s. induction lines as [|line lines IH]; intros s; [reflexivity|].
  cbn [forEach]. unfold bind.
  change (sessionLine agentId line s)
    with (Ok tt, (bind (JSONparse line) (fun obj => processSessionLine obj agentId) s).2).
  apply IH.
Qed.

Lemma append_nil_r (t : string) : t +:+ "" = t.
Proof. induction t as [|c t IH]; [reflexivity|]. rewrite append_cons, IH. reflexivity. Qed.

Lemma linesOf_append_terminated (m b : string) :
  linesOf ((m +:+ nl) +:+ b) = linesOf (m +:+ nl) ++ linesOf b.
Proof.
  rewrite linesOf_terminated. unfold linesOf.
  rewrite append_assoc, splitLines_append, List.filter_app. reflexivity.
Qed.

Lemma linesOf_joined (chunks : list string) :
  Forall terminated chunks -> flat_map linesOf chunks = linesOf (joined chunks).
Proof.
  induction 1 as [|chunk chunks Hc _ IH]; [reflexivity|].
  cbn [flat_map joined foldr]. fold (joined chunks). rewrite IH.
  destruct Hc as [-> | [m ->]].
  - reflexivity.
  - rewrite linesOf_append_terminated. reflexivity.
Qed.

(** One append followed by one tail, from a state that has read the whole
    file. *)
Lemma append_then_tail (p agentId content chunk : string) (s : state) :
  files s !! p = Some content ->
  sessionFileOffsets s !! p = Some (String.length content) ->
  streams s = [] ->
  tail p agentId (writerAppends p chunk s)
  = (Ok tt,
     relocate (<[p := content +:+ chunk]> (files s))
       (<[p := String.length (content +:+ chunk)]> (sessionFileOffsets s))
       (exec (forEach (sessionLine agentId) (linesOf chunk)) s)).
Proof.
  intros Hf Ho Hst.
  assert (Hf' : files (writerAppends p chunk s) !! p = Some (content +:+ chunk)).
  { unfold writerAppends. rewrite Hf. cbn. apply lookup_insert_eq. }
  assert (Ho' : default 0 (sessionFileOffsets (writerAppends p chunk s) !! p)
                = String.length content).
  { cbn. rewrite Ho. reflexivity. }
  assert (Hfs : files (writerAppends p chunk s) = <[p := content +:+ chunk]> (files s)).
  { unfold writerAppends. rewrite Hf. reflexivity. }
  destruct chunk as [|c chunk].
  - rewrite (tail_idle p agentId _ _ Hf') by (try assumption; rewrite Ho'; rewrite append_nil_r; lia).
    cbn [linesOf splitLines List.filter nonblank forEach exec ret snd].
    f_equal. unfold relocate. rewrite <- Hfs. destruct s; reflexivity.
  - rewrite (tail_reads p agentId _ _ Hf') by
      (try assumption; rewrite Ho', length_append; cbn; lia).
    rewrite Ho', readRange_appended.
    change (withSessionFileOffsets ?o (writerAppends p ?k s))
      with (relocate (files (writerAppends p k s)) o s).
    rewrite hubLocal_sessionLines.
    fold (result (forEach (sessionLine agentId) (linesOf (String c chunk))) s).
    rewrite sessionLines_ok. rewrite Hfs. reflexivity.
Qed.

Lemma relocate_same (s : state) : relocate (files s) (sessionFileOffsets s) s = s.
Proof. destruct s; reflexivity. Qed.

Lemma exec_sessionLines_app (agentId : string) (l1 l2 : list string) (s : state) :
  exec (forEach (sessionLine agentId) (l1 ++ l2)) s
  = exec (forEach (sessionLine agentId) l2) (exec (forEach (sessionLine agentId) l1) s).
Proof.
  unfold exec. rewrite forEach_app. unfold bind.
  pose proof (sessionLines_ok agentId l1 s) as Hok. unfold result in Hok.
  destruct (forEach (sessionLine agentId) l1 s) as [[[]|] s']; [reflexivity|discriminate].
Qed.

Lemma exec_sessionLines_relocate (agentId : string) (lines : list string)
    (fs : gmap string string) (offsets : gmap string nat) (s : state) :
  exec (forEach (sessionLine agentId) lines) (relocate fs offsets s)
  = relocate fs offsets (exec (forEach (sessionLine agentId) lines) s).
Proof. unfold exec. rewrite hubLocal_sessionLines. reflexivity. Qed.

Lemma appends_then_tails (p agentId : string) (chunks : list string)
    (content : string) (s : state) :
  files s !! p = Some content ->
  sessionFileOffsets s !! p = Some (String.length content) ->
  streams s = [] ->
  forEach (fun chunk s' => tail p agentId (writerAppends p chunk s')) chunks s
  = (Ok tt,
     relocate (<[p := content +:+ joined chunks]> (files s))
       (<[p := String.length (content +:+ joined chunks)]> (sessionFileOffsets s))
       (exec (forEach (sessionLine agentId) (flat_map linesOf chunks)) s)).
Proof.
  revert content s. induction chunks as [|chunk chunks IH]; intros content s Hf Ho Hst.
  - cbn [joined foldr flat_map forEach exec ret snd]. rewrite append_nil_r.
    rewrite !insert_id by assumption. rewrite relocate_same. reflexivity.
  - erewrite forEach_cons_ok by (apply append_then_tail; eassumption).
    destruct (hubOnly_sessionLines agentId (linesOf chunk) s)
      as (_ & _ & _ & _ & _ & _ & Hst1).
    fold (exec (forEach (sessionLine agentId) (linesOf chunk)) s) in Hst1.
    rewrite (IH (content +:+ chunk)).
    + f_equal. cbn [flat_map joined foldr]. fold (joined chunks).
      rewrite exec_sessionLines_app, exec_sessionLines_relocate.
      cbn [relocate files sessionFileOffsets withFiles withSessionFileOffsets].
      rewrite !insert_insert_eq, append_assoc. reflexivity.
    + cbn. apply lookup_insert_eq.
    + cbn. apply lookup_insert_eq.
    + cbn. rewrite Hst1. exact Hst.
Qed.

(** X8. Tail completeness. Starting from a session file that has been read
    to its end, let the writer append chunks of whole lines, with a tail
    after each append: together the tails hand to the line handler exactly
    the non-blank lines of the appended text, in order, each once, and
    leave the offset at the end of the file. *)
Theorem tails_follow_appends (p agentId content : string) (chunks : list string)
    (s : state) :
  files s !! p = Some content ->
  sessionFileOffsets s !! p = Some (String.length content) ->
  streams s = [] ->
  Forall terminated chunks ->
  forEach (fun chunk s' => tail p agentId (writerAppends p chunk s')) chunks s
  = (Ok tt,
     relocate (<[p := content +:+ joined chunks]> (files s))
       (<[p := String.length (content +:+ joined chunks)]> (sessionFileOffsets s))
       (exec (forEach (sessionLine agentId) (linesOf (joined chunks))) s)).
Proof.
  intros Hf Ho Hst Hterm.
  rewrite (appends_then_tails p agentId chunks content s Hf Ho Hst).
  rewrite linesOf_joined by assumption. reflexivity.
Qed.

(** ** The events tailer *)

Lemma eventLine_run (line : string) (s : state) :
  eventLine line s = (Ok tt, withTrace (trace s ++ eventSends (clients s) [line]) s).
Proof.
  unfold eventLine, try_, bind, JSONparse, eventSends. cbn [omap list_omap].
  destruct (parse line) as [event|]; cbn [flat_map snd].
  - unfold broadcastEvent. rewrite sendToClients_run. rewrite app_nil_r. reflexivity.
  - rewrite app_nil_r, withTrace_same. reflexivity.
Qed.

Lemma eventSends_cons (cs : list client) (line : string) (lines : list string) :
  eventSends cs (line :: lines) = eventSends cs [line] ++ eventSends cs lines.
Proof.
  unfold eventSends. cbn [omap list_omap]. destruct (parse line); cbn [flat_map].
  - rewrite app_nil_r. reflexivity.
  - reflexivity.
Qed.

Lemma eventLines_run (lines : list string) (s : state) :
  forEach eventLine lines s
  = (Ok tt, withTrace (trace s ++ eventSends (clients s) lines) s).
Proof.
  revert s. induction lines as [|line lines IH]; intros s.
  - cbn. rewrite app_nil_r, withTrace_same. reflexivity.
  - erewrite forEach_cons_ok by apply eventLine_run. rewrite IH.
    rewrite (eventSends_cons _ line lines). destruct s; cbn.
    rewrite <- app_assoc. reflexivity.
Qed.

(** X9. When the events file has grown, a tail of it broadcasts every
    line of the new bytes that is not blank and parses as JSON, whatever
    JSON value it is, to every open client, in order; it moves
    [lastEventSize] to the size of the file and changes nothing else, the
    replay file in particular: antfarm events are never persisted. *)
Theorem events_tail_broadcasts (content : string) (s : state) :
  files s !! EVENTS_FILE = Some content ->
  streams s = [] ->
  lastEventSize s < String.length content ->
  tailEvents s
  = (Ok tt,
     withTrace (trace s
                ++ eventSends (clients s)
                     (linesOf (readRange (lastEventSize s) (String.length content) content)))
       (withLastEventSize (String.length content) s)) /\
  commsFile (exec tailEvents s) = commsFile s /\
  lastEventSize (exec tailEvents s) = String.length content.
Proof.
  intros Hf Hst Hlt.
  assert (E : tailEvents s
              = (Ok tt,
                 withTrace (trace s
                            ++ eventSends (clients s)
                                 (linesOf (readRange (lastEventSize s)
                                             (String.length content) content)))
                   (withLastEventSize (String.length content) s))).
  { rewrite (tailEvents_reads content s Hf Hst Hlt), eventLines_run. reflexivity. }
  unfold exec. rewrite E. repeat split.
Qed.

(** X10. The events tailer starts at the end of the events file: what the
    file holds when the server starts is not broadcast by the tailer, and
    after the writer has appended a chunk a tail reads the lines of that
    chunk only. *)
Theorem events_tail_skips_history (content chunk : string) (s : state) :
  files s !! EVENTS_FILE = Some content ->
  streams s = [] ->
  chunk <> "" ->
  (startEventTail >> tailEvents) s = (Ok tt, withLastEventSize (String.length content) s) /\
  tailEvents (writerAppends EVENTS_FILE chunk (withLastEventSize (String.length content) s))
  = forEach eventLine (linesOf chunk)
      (withLastEventSize (String.length (content +:+ chunk))
         (writerAppends EVENTS_FILE chunk s)).
Proof.
  intros Hf Hst Hne. split.
  - unfold bind, startEventTail. rewrite Hf.
    rewrite (tailEvents_idle content); try assumption; [reflexivity | cbn; lia].
  - rewrite (tailEvents_reads (content +:+ chunk)).
    + cbn [lastEventSize withLastEventSize writerAppends withFiles].
      rewrite readRange_appended. reflexivity.
    + unfold writerAppends. cbn. rewrite Hf. apply lookup_insert_eq.
    + exact Hst.
    + cbn. rewrite length_append. destruct chunk; [congruence|]. cbn. lia.
Qed.

(** X11. While the events file is missing, the server start and every tail
    put [lastEventSize] at 0; once the file exists, the next tail reads it
    from its first byte. *)
Theorem events_file_created_later (content : string) (s : state) :
  files s !! EVENTS_FILE = None ->
  streams s = [] ->
  content <> "" ->
  startEventTail s = (Ok tt, withLastEventSize 0 s) /\
  tailEvents s = (Ok tt, withLastEventSize 0 s) /\
  tailEvents (withFiles (<[EVENTS_FILE := content]> (files s)) (withLastEventSize 0 s))
  = forEach eventLine (linesOf content)
      (withLastEventSize (String.length content)
         (withFiles (<[EVENTS_FILE := content]> (files s)) s)).
Proof.
  intros Hf Hst Hne. split; [|split].
  - unfold startEventTail. rewrite Hf. reflexivity.
  - unfold tailEvents, bind, eventsFileChanged. rewrite Hf. cbn.
    unfold runStreams. cbn. rewrite Hst. destruct s; cbn in *; subst; reflexivity.
  - rewrite (tailEvents_reads content).
    + cbn [lastEventSize withLastEventSize withFiles].
      change (readRange 0 (String.length content) content)
        with (String.substring 0 (String.length content - 0) content).
      rewrite Nat.sub_0_r, substring_whole. reflexivity.
    + cbn. apply lookup_insert_eq.
    + exact Hst.
    + cbn. destruct content; [congruence|]. cbn. lia.
Qed.

(** ** The poller over several agents and several ticks *)

Lemma keepsFiles_bind {A B} (c : M A) (k : A -> M B) :
  keepsFiles c -> (forall a, keepsFiles (k a)) -> keepsFiles (bind c k).
Proof.
  intros Hc Hk s. unfold bind. specialize (Hc s).
  destruct (c s) as [[a|] s']; cbn [snd] in *; [|exact Hc].
  rewrite Hk. exact Hc.
Qed.

Lemma keepsFiles_forEach {A} (f : A -> M unit) (l : list A) :
  (forall x, keepsFiles (f x)) -> keepsFiles (forEach f l).
Proof.
  intros Hf. induction l as [|x l IH]; [intros s; reflexivity|].
  cbn [forEach]. apply keepsFiles_bind; [apply Hf | intros _; exact IH].
Qed.

Lemma keepsFiles_get (v : value) (k : string) : keepsFiles (get v k).
Proof. destruct v; intros st; reflexivity. Qed.

Lemma keepsFiles_setUpdate (agentId key : string) (u : value) :
  keepsFiles (setUpdate agentId key u).
Proof. intros s. unfold setUpdate. destruct (_ !! _); reflexivity. Qed.

Lemma keepsFiles_tailSessionFile (file : value) (agentId : string) :
  keepsFiles (tailSessionFile file agentId).
Proof. intros s. apply (tailSessionFile_frame file agentId s). Qed.

Lemma keepsFiles_baseline (agentId : string) (entry : string * value) :
  keepsFiles (baseline agentId entry).
Proof.
  unfold baseline. apply keepsFiles_bind; [apply keepsFiles_get|]. intros u.
  apply keepsFiles_bind; [apply keepsFiles_setUpdate|]. intros _.
  destruct (truthy _); [|intros s; reflexivity].
  intros s. unfold try_, bind, statSync, setOffset. cbn [snd].
  destruct (prop entry.2 "sessionFile"); try reflexivity.
  destruct (files s !! s0); reflexivity.
Qed.

Lemma keepsFiles_refresh (agentId : string) (entry : string * value) :
  keepsFiles (refresh agentId entry).
Proof.
  unfold refresh. apply keepsFiles_bind.
  { intros s. unfold lastUpdate. destruct (_ !! _); reflexivity. }
  intros prev. apply keepsFiles_bind; [apply keepsFiles_get|]. intros curr.
  destruct (_ && _); [|intros s; reflexivity].
  apply keepsFiles_bind; [apply keepsFiles_setUpdate|]. intros _.
  destruct (truthy _); [apply keepsFiles_tailSessionFile | intros s; reflexivity].
Qed.

Lemma keepsFiles_pollSessions (agentId : string) (sessions : value) :
  keepsFiles (pollSessions agentId sessions).
Proof.
  unfold pollSessions. apply keepsFiles_bind; [intros s; reflexivity|]. intros known.
  assert (He : keepsFiles (objectEntries sessions)).
  { destruct sessions; intros st; reflexivity. }
  destruct known.
  - apply keepsFiles_bind; [exact He|]. intros entries.
    apply keepsFiles_forEach, keepsFiles_refresh.
  - apply keepsFiles_bind; [intros s; reflexivity|]. intros _.
    apply keepsFiles_bind; [exact He|]. intros entries.
    apply keepsFiles_forEach, keepsFiles_baseline.
Qed.

Lemma keepsFiles_pollAgent (agentId : string) : keepsFiles (pollAgent agentId).
Proof.
  intros s. unfold pollAgent.
  destruct (files s !! sessionsPath agentId) as [data|]; [|reflexivity].
  unfold tryReturn, JSONparse. destruct (parse data) as [sessions|]; [|reflexivity].
  apply keepsFiles_pollSessions.
Qed.

Lemma pollAgent_broken (agentId : string) (s : state) :
  files s !! sessionsPath agentId = None \/
  (exists data, files s !! sessionsPath agentId = Some data /\ parse data = None) ->
  pollAgent agentId s = (Ok tt, s).
Proof.
  intros [Hf | (data & Hf & Hp)]; unfold pollAgent; rewrite Hf; [reflexivity|].
  unfold tryReturn, JSONparse. rewrite Hp. reflexivity.
Qed.

(** X12. An agent whose session index is missing or is not JSON is
    skipped without a trace: polling a list of agents gives the same result
    and the same state as polling the list without that agent. *)
Theorem poll_skips_broken_index
    (before rest : list string) (agentId : string) (s : state) :
  files s !! sessionsPath agentId = None \/
  (exists data, files s !! sessionsPath agentId = Some data /\ parse data = None) ->
  pollAgent agentId s = (Ok tt, s) /\
  forEach pollAgent (before ++ agentId :: rest) s = forEach pollAgent (before ++ rest) s.
Proof.
  intros Hbroken. split; [apply pollAgent_broken, Hbroken|].
  revert s Hbroken. induction before as [|b before IH]; intros s Hbroken.
  - cbn [app forEach]. unfold bind. rewrite pollAgent_broken by assumption. reflexivity.
  - cbn [app forEach]. unfold bind.
    pose proof (keepsFiles_pollAgent b s) as Hfiles.
    destruct (pollAgent b s) as [[[]|] s']; [|reflexivity].
    cbn [snd] in Hfiles. apply IH. rewrite Hfiles. exact Hbroken.
Qed.

Lemma refresh_unchanged (agentId : string) (entries : list (string * value))
    (known : gmap string value) (s : state) :
  Forall (fun e => readable e.2 = true) entries ->
  lastSessionUpdates s !! agentId = Some known ->
  Forall (fun e => changed known e = false) entries ->
  forEach (refresh agentId) entries s = (Ok tt, s).
Proof.
  intros Hread Hknown Hsame. apply forEach_unchanged.
  apply Forall_forall. intros [k v] Hin.
  rewrite Forall_forall in Hread, Hsame.
  rewrite (refresh_step agentId k v known s (Hread _ Hin) Hknown).
  rewrite (Hsame _ Hin). reflexivity.
Qed.

Lemma pollAgent_unchanged
    (agentId data : string) (entries : list (string * value))
    (known : gmap string value) (s : state) :
  files s !! sessionsPath agentId = Some data ->
  parse data = Some (VObj entries) ->
  Forall (fun e => readable e.2 = true) entries ->
  lastSessionUpdates s !! agentId = Some known ->
  Forall (fun e => changed known e = false) entries ->
  pollAgent agentId s = (Ok tt, s).
Proof.
  intros Hf Hp Hread Hknown Hsame.
  rewrite (pollAgent_parsed agentId data (VObj entries) s Hf Hp).
  unfold pollSessions, bind, updatesOf. rewrite Hknown. unfold objectEntries, ret.
  apply refresh_unchanged with (known := known); assumption.
Qed.

(** X13. A later poll of an agent whose index shows, for every session, an
    [updatedAt] that is falsy or equal to the stored one changes nothing:
    no stored value is touched, no file is tailed, nothing is sent. *)
Theorem poll_unchanged_is_idle
    (agentId data : string) (entries : list (string * value))
    (known : gmap string value) (s : state) :
  files s !! sessionsPath agentId = Some data ->
  parse data = Some (VObj entries) ->
  Forall (fun e => readable e.2 = true) entries ->
  lastSessionUpdates s !! agentId = Some known ->
  Forall (fun e => changed known e = false) entries ->
  pollAgent agentId s = (Ok tt, s) /\
  trace (exec (pollAgent agentId) s) = trace s /\
  streams (exec (pollAgent agentId) s) = streams s /\
  lastSessionUpdates (exec (pollAgent agentId) s) = lastSessionUpdates s.
Proof.
  intros Hf Hp Hread Hknown Hsame. unfold exec.
  rewrite (pollAgent_unchanged agentId data entries known s); try assumption.
  repeat split.
Qed.

Lemma strictEq_refl (v : value) :
  truthy v = true -> primitive v = true -> strictEq v v = true.
Proof.
  destruct v; cbn; try discriminate; intros Ht _.
  - destruct b; [reflexivity|discriminate].
  - apply andb_true_iff in Ht as [_ Ht]. exact Ht.
  - apply String.eqb_refl.
Qed.

(** X14. The first poll and the later polls agree: when every session's
    [updatedAt] is a number, a string, a boolean or [null], polling an
    agent twice in a row over the same index is the same as polling it
    once; the second poll tails nothing. *)
Theorem repeated_poll_is_idle
    (agentId data : string) (entries : list (string * value)) (s : state) :
  files s !! sessionsPath agentId = Some data ->
  parse data = Some (VObj entries) ->
  Forall (fun e => readable e.2 = true) entries ->
  Forall (fun e => primitive (prop e.2 "updatedAt") = true) entries ->
  NoDup (map fst entries) ->
  lastSessionUpdates s !! agentId = None ->
  (pollAgent agentId >> pollAgent agentId) s = pollAgent agentId s.
Proof.
  intros Hf Hp Hread Hprim Hnd Hnone.
  assert (E : pollAgent agentId s
              = (Ok tt,
                 withSessionFileOffsets
                   (seeked (files s) (sessionFileOffsets s) entries)
                   (withLastSessionUpdates
                      (<[agentId := baselined ∅ entries]> (lastSessionUpdates s)) s))).
  { rewrite (pollAgent_parsed agentId data (VObj entries) s Hf Hp).
    unfold pollSessions, bind, updatesOf. rewrite Hnone.
    unfold resetUpdates, objectEntries, ret.
    rewrite (baseline_loop agentId entries ∅).
    - destruct s; cbn. rewrite insert_insert_eq. reflexivity.
    - assumption.
    - cbn. apply lookup_insert_eq. }
  unfold bind. rewrite E.
  apply pollAgent_unchanged with (data := data) (entries := entries)
                                  (known := baselined ∅ entries).
  - cbn. exact Hf.
  - exact Hp.
  - exact Hread.
  - cbn. apply lookup_insert_eq.
  - apply Forall_forall. intros [k v] Hin.
    rewrite Forall_forall in Hprim. specialize (Hprim _ Hin). cbn [snd] in Hprim.
    unfold changed. cbn [fst snd].
    rewrite (baselined_lookup k v entries ∅ Hnd).
    + cbn. destruct (truthy (prop v "updatedAt")) eqn:Ht; [|reflexivity].
      rewrite strictEq_refl by assumption. reflexivity.
    + apply list_elem_of_In. exact Hin.
Qed.





(** ** The agent communications API *)

(** X16. A POST whose body lacks a truthy [from], [to] or [message] is
    answered 400 with Missing required fields; the replay file is neither
    read nor written and nothing is sent. *)
Theorem post_rejects_incomplete (body : value) (now : string) (s : state) :
  readable body = true ->
  truthy (prop body "from") = false \/
  truthy (prop body "to") = false \/
  truthy (prop body "message") = false ->
  postAgentComms body now s
  = (Ok (Json 400 (object [("error", VStr "Missing required fields")])), s).
Proof.
  intros Hr Hmiss. unfold postAgentComms, postAgentCommsBody, bind.
  rewrite get_readable by assumption.
  destruct Hmiss as [H | [H | H]]; rewrite H; cbn [negb orb];
    rewrite ?orb_true_r; reflexivity.
Qed.

Lemma postAgentComms_run (body : value) (now : string) (l : list value) (s : state) :
  readable body = true ->
  truthy (prop body "from") = true ->
  truthy (prop body "to") = true ->
  truthy (prop body "message") = true ->
  priorComms (commsFile s) = Some l ->
  postAgentComms body now s
  = if commsWritable s
    then (Ok (Json 200 (object [("success", VBool true);
                                ("entry", postedEntry body now)])),
          withTrace (trace s ++ [CommsRead;
                                 CommsWrite (VArr (sliceLast 200 (l ++ [postedEntry body now])))
                                   true])
            (withCommsFile (Holds (VArr (sliceLast 200 (l ++ [postedEntry body now])))) s))
    else (Ok (Failed 500),
          withTrace (trace s ++ [CommsRead;
                                 CommsWrite (VArr (sliceLast 200 (l ++ [postedEntry body now])))
                                   false]) s).
Proof.
  intros Hr Hfrom Hto Hmsg Hprior.
  unfold postAgentComms, postAgentCommsBody, bind at 1.
  rewrite get_readable by assumption. rewrite Hfrom, Hto, Hmsg. cbn [negb orb].
  destruct s as [fs cf w cl les lsu sfo st tr]. cbn [commsWritable].
  destruct cf as [| |[]]; cbn in Hprior; inversion Hprior; subst; clear Hprior;
    unfold bind, tryOr, readComms, bind, log, push, ret;
    cbn -[sliceLast object postedEntry Nat.ltb List.length app];
    rewrite cap_sliceLast; unfold writeComms;
    cbn -[sliceLast object postedEntry Nat.ltb List.length app];
    destruct w; unfold log, bind, throw;
    cbn -[sliceLast object postedEntry Nat.ltb List.length app];
    rewrite <- ?app_assoc; reflexivity.
Qed.

(** X17. A POST with [from], [to] and [message], when the replay file is
    missing, not JSON or an array and can be written: the entry (the three
    fields, the time of the request, and the [status] or sent) is appended,
    the file keeps its last 200 entries, the answer is the success with the
    entry, and no WebSocket client is sent anything. *)
Theorem post_appends_entry (body : value) (now : string) (l : list value) (s : state) :
  readable body = true ->
  truthy (prop body "from") = true ->
  truthy (prop body "to") = true ->
  truthy (prop body "message") = true ->
  priorComms (commsFile s) = Some l ->
  commsWritable s = true ->
  result (postAgentComms body now) s
  = Ok (Json 200 (object [("success", VBool true); ("entry", postedEntry body now)])) /\
  commsFile (exec (postAgentComms body now) s)
  = Holds (VArr (sliceLast 200 (l ++ [postedEntry body now]))) /\
  List.length (replay (commsFile (exec (postAgentComms body now) s))) <= 200 /\
  (forall c, received c (trace (exec (postAgentComms body now) s)) = received c (trace s)) /\
  prop (postedEntry body now) "timestamp" = VStr now /\
  prop (postedEntry body now) "from" = prop body "from" /\
  prop (postedEntry body now) "details" = VUndef.
Proof.
  intros Hr Hfrom Hto Hmsg Hprior Hw. unfold result, exec.
  rewrite (postAgentComms_run body now l s Hr Hfrom Hto Hmsg Hprior), Hw.
  cbn [fst snd]. split; [reflexivity|]. split; [reflexivity|]. split.
  - cbn [commsFile withTrace withCommsFile replay]. rewrite sliceLast_length. lia.
  - split.
    + intros c. cbn [trace withTrace]. rewrite received_app. cbn. apply app_nil_r.
    + unfold postedEntry.
      repeat split; (rewrite prop_object; [reflexivity | distinct_keys]).
Qed.

(** X18. Unlike a publish, a POST does not swallow its failures: when the
    replay file parses to something that is not an array, or when the write
    fails, the answer is a 500 and the file is left as it was. *)
Theorem post_fails_loudly (body : value) (now : string) (s : state) :
  readable body = true ->
  truthy (prop body "from") = true ->
  truthy (prop body "to") = true ->
  truthy (prop body "message") = true ->
  priorComms (commsFile s) = None \/ commsWritable s = false ->
  result (postAgentComms body now) s = Ok (Failed 500) /\
  commsFile (exec (postAgentComms body now) s) = commsFile s.
Proof.
  intros Hr Hfrom Hto Hmsg Hbad.
  destruct (priorComms (commsFile s)) as [l|] eqn:Hprior.
  - destruct Hbad as [Hbad | Hw]; [discriminate|]. unfold result, exec.
    rewrite (postAgentComms_run body now l s Hr Hfrom Hto Hmsg Hprior), Hw.
    split; reflexivity.
  - assert (E : postAgentComms body now s
                = (Ok (Failed 500), withTrace (trace s ++ [CommsRead]) s)).
    { unfold postAgentComms, postAgentCommsBody, bind at 1.
      rewrite get_readable by assumption. rewrite Hfrom, Hto, Hmsg. cbn [negb orb].
      destruct s as [fs cf w cl les lsu sfo st tr].
      destruct cf as [| |v]; try discriminate.
      destruct v; try discriminate; reflexivity. }
    unfold result, exec. rewrite E. split; reflexivity.
Qed.

Lemma getAgentComms_run (s : state) :
  getAgentComms s
  = (Ok (Json 200 (object [("communications",
                            VArr (rev (sliceLast 50 (replay (commsFile s)))))])),
     withTrace (trace s ++ [CommsRead]) s).
Proof.
  unfold getAgentComms, bind, readComms, bind, log.
  destruct s as [fs cf w cl les lsu sfo st tr]. cbn [commsFile withTrace trace].
  destruct cf as [| |v]; try reflexivity.
  destruct v; reflexivity.
Qed.

(** X19. A GET never fails: whatever the replay file holds, the answer is
    the last 50 entries of its array, newest first, and an empty list when
    the file is missing, is not JSON or is not an array; the file is only
    read. *)
Theorem get_lists_newest_first (s : state) :
  result getAgentComms s
  = Ok (Json 200 (object [("communications",
                           VArr (rev (sliceLast 50 (replay (commsFile s)))))])) /\
  List.length (rev (sliceLast 50 (replay (commsFile s)))) <= 50 /\
  commsFile (exec getAgentComms s) = commsFile s /\
  trace (exec getAgentComms s) = trace s ++ [CommsRead].
Proof.
  unfold result, exec. rewrite getAgentComms_run. cbn [fst snd].
  split; [reflexivity|]. split; [|split; reflexivity].
  rewrite length_rev, sliceLast_length. lia.
Qed.

Lemma sliceLast_snoc {A} (n : nat) (l : list A) (x : A) :
  sliceLast (S n) (l ++ [x]) = sliceLast n l ++ [x].
Proof.
  unfold sliceLast. rewrite length_app. cbn [List.length].
  replace (List.length l + 1 - S n) with (List.length l - n) by lia.
  rewrite drop_app_le by lia. reflexivity.
Qed.

(** X20. A successful POST followed by a GET: the list of the answer
    starts with the entry just posted, followed by the 49 entries before
    it, newest first. *)
Theorem post_then_get (body : value) (now : string) (l : list value) (s : state) :
  readable body = true ->
  truthy (prop body "from") = true ->
  truthy (prop body "to") = true ->
  truthy (prop body "message") = true ->
  priorComms (commsFile s) = Some l ->
  commsWritable s = true ->
  result getAgentComms (exec (postAgentComms body now) s)
  = Ok (Json 200 (object [("communications",
                           VArr (postedEntry body now :: rev (sliceLast 49 l)))])).
Proof.
  intros Hr Hfrom Hto Hmsg Hprior Hw. unfold result, exec.
  rewrite (postAgentComms_run body now l s Hr Hfrom Hto Hmsg Hprior), Hw.
  rewrite getAgentComms_run. cbn [fst snd commsFile withTrace withCommsFile replay].
  rewrite sliceLast_sliceLast by lia.
  rewrite (sliceLast_snoc 49), rev_app_distr. reflexivity.
Qed.

(** X21. After any sequence of publishes, from an empty replay file that
    can be written, a GET lists the entries of the last 50 published
    events, the newest first, each with its event as [details]. *)
Theorem published_events_listed (events : list value) (s : state) :
  Forall (fun e => isObject e = true) events ->
  commsWritable s = true ->
  priorComms (commsFile s) = Some [] ->
  result getAgentComms (exec (publishAll events) s)
  = Ok (Json 200 (object [("communications",
                           VArr (map entryOf (rev (sliceLast 50 events))))])) /\
  map (fun c => prop c "details") (map entryOf (rev (sliceLast 50 events)))
  = rev (sliceLast 50 events).
Proof.
  intros Hobj Hw Hprior.
  destruct (publishAll_replay events [] s Hobj Hw Hprior) as [_ Hrep]; [cbn; lia|].
  apply priorComms_replay in Hrep. cbn [app] in Hrep.
  unfold result. rewrite getAgentComms_run. cbn [fst]. rewrite Hrep.
  rewrite sliceLast_sliceLast by lia. split.
  - rewrite <- map_sliceLast, map_rev. reflexivity.
  - apply map_details_entryOf. apply Forall_rev.
    unfold sliceLast. apply Forall_drop, Hobj.
Qed.

Lemma readablePrefix_all (l : list value) :
  Forall (fun x => readable x = true) l -> readablePrefix l = l.
Proof.
  induction 1 as [|x l Hx _ IH]; [reflexivity|].
  cbn. rewrite Hx, IH. reflexivity.
Qed.

(** X22. An entry logged by a successful POST is replayed to the next
    connection: after the entries before it (here all readable), the
    connection is sent the posted entry itself as the [data] of a backfill
    message, and then the backfill_complete. *)
Theorem posted_entry_is_backfilled
    (ws : nat) (body : value) (now : string) (l : list value) (s : state) :
  readable body = true ->
  truthy (prop body "from") = true ->
  truthy (prop body "to") = true ->
  truthy (prop body "message") = true ->
  priorComms (commsFile s) = Some l ->
  commsWritable s = true ->
  Forall (fun x => readable x = true) l ->
  received ws (trace (exec (accept ws) (exec (postAgentComms body now) s)))
  = received ws (trace s)
    ++ eventsBackfill (files s)
    ++ map commsMessage (sliceLast 29 l)
    ++ [commsMessage (postedEntry body now); completeMessage] /\
  prop (commsMessage (postedEntry body now)) "data" = postedEntry body now /\
  prop (commsMessage (postedEntry body now)) "backfill" = VBool true.
Proof.
  intros Hr Hfrom Hto Hmsg Hprior Hw Hl. split.
  - unfold exec.
    rewrite (postAgentComms_run body now l s Hr Hfrom Hto Hmsg Hprior), Hw.
    rewrite accept_any.
    cbn [fst snd trace files commsFile withTrace withCommsFile withClients commsBackfill].
    rewrite sliceLast_sliceLast by lia. rewrite (sliceLast_snoc 29).
    rewrite readablePrefix_all.
    + rewrite !received_app, !received_map_Sent. cbn [received].
      rewrite Nat.eqb_refl, map_app, <- !app_assoc. reflexivity.
    + apply Forall_app. split.
      * unfold sliceLast. apply Forall_drop, Hl.
      * repeat constructor.
  - unfold commsMessage.
    assert (Hd : prop (postedEntry body now) "details" = VUndef).
    { unfold postedEntry. rewrite prop_object; [reflexivity | distinct_keys]. }
    rewrite Hd. split; (rewrite prop_object; [reflexivity | distinct_keys]).
Qed.

(** *** Documents *)

Lemma splitOn_nonempty (sep : ascii) (t : string) : splitOn sep t <> [].
Proof.
  destruct t as [|c t]; cbn; [discriminate|].
  destruct (Ascii.eqb c sep); [discriminate|].
  destruct (splitOn sep t); discriminate.
Qed.

Lemma splitOn_append (sep : ascii) (a b : string) :
  splitOn sep (a +:+ String sep b) = splitOn sep a ++ splitOn sep b.
Proof.
  induction a as [|c a IH].
  - change ("" +:+ String sep b) with (String sep b). cbn [splitOn].
    rewrite Ascii.eqb_refl. reflexivity.
  - rewrite append_cons. cbn [splitOn]. destruct (Ascii.eqb c sep).
    + rewrite IH. reflexivity.
    + rewrite IH. pose proof (splitOn_nonempty sep a) as Hne.
      destruct (splitOn sep a) as [|cur rest]; [congruence|]. reflexivity.
Qed.

Lemma splitOn_plain (sep : ascii) (t : string) :
  includes sep t = false -> splitOn sep t = [t].
Proof.
  induction t as [|c t IH]; [reflexivity|].
  cbn. destruct (Ascii.eqb c sep); [discriminate|]. cbn. intros H.
  rewrite IH by assumption. reflexivity.
Qed.

Lemma splitOn_joined (sep : ascii) (l : list string) :
  l <> [] -> Forall (fun x => includes sep x = false) l ->
  splitOn sep (joinWith sep l) = l.
Proof.
  intros Hne H. induction H as [|x r Hx Hr IH]; [congruence|].
  destruct r as [|y r'].
  - cbn. apply splitOn_plain, Hx.
  - change (joinWith sep (x :: y :: r'))
      with (x +:+ String sep (joinWith sep (y :: r'))).
    rewrite splitOn_append, (splitOn_plain sep x Hx), IH by discriminate.
    reflexivity.
Qed.

Lemma normalizeSegments_app (acc l1 l2 : list string) :
  normalizeSegments acc (l1 ++ l2) = normalizeSegments (normalizeSegments acc l1) l2.
Proof.
  revert acc. induction l1 as [|x l1 IH]; intros acc; [reflexivity|].
  cbn [app normalizeSegments].
  destruct (String.eqb x "" || String.eqb x "."); [apply IH|].
  destruct (String.eqb x ".."); apply IH.
Qed.

Lemma normalizeSegments_plain (acc segs : list string) :
  Forall plainSegment segs -> normalizeSegments acc segs = acc ++ segs.
Proof.
  intros H. revert acc. induction H as [|x r (H1 & H2 & H3 & _) _ IH]; intros acc.
  - cbn. symmetry. apply app_nil_r.
  - cbn [normalizeSegments].
    apply String.eqb_neq in H1, H2, H3. rewrite H1, H2, H3. cbn.
    rewrite IH, <- app_assoc. reflexivity.
Qed.

Lemma joinWith_cons (sep : ascii) (x y : string) (r : list string) :
  joinWith sep (x :: y :: r) = x +:+ String sep (joinWith sep (y :: r)).
Proof. reflexivity. Qed.

Lemma joinWith_snoc (sep : ascii) (l : list string) (f : string) :
  l <> [] -> joinWith sep (l ++ [f]) = joinWith sep l +:+ String sep f.
Proof.
  induction l as [|x r IH]; [congruence|]. intros _.
  destruct r as [|y r'].
  - reflexivity.
  - change ((x :: y :: r') ++ [f]) with (x :: y :: (r' ++ [f])).
    rewrite !joinWith_cons. change (y :: r' ++ [f]) with ((y :: r') ++ [f]).
    rewrite IH by discriminate.
    rewrite append_assoc, append_cons. reflexivity.
Qed.

Lemma joinWith_removelast (sep : ascii) (l : list string) :
  String.length (joinWith sep (removelast l)) <= String.length (joinWith sep l).
Proof.
  induction l as [|x r IH]; [cbn; lia|].
  destruct r as [|y r']; [cbn; lia|].
  change (removelast (x :: y :: r')) with (x :: removelast (y :: r')).
  rewrite joinWith_cons.
  destruct (removelast (y :: r')) as [|z q] eqn:E.
  - rewrite length_append. cbn. lia.
  - rewrite joinWith_cons, !length_append. cbn [String.length]. lia.
Qed.

Lemma startsWith_append (p t : string) : startsWith p (p +:+ t) = true.
Proof.
  induction p as [|c p IH]; [reflexivity|].
  rewrite append_cons. cbn. rewrite Ascii.eqb_refl. exact IH.
Qed.

Lemma startsWith_length (p t : string) :
  startsWith p t = true -> String.length p <= String.length t.
Proof.
  revert t. induction p as [|c p IH]; intros t; [cbn; lia|].
  destruct t as [|d t]; cbn; [discriminate|].
  intros H. apply andb_prop in H as [_ H]. apply IH in H. lia.
Qed.

Lemma basename_plain (f : string) :
  f <> "" -> includes slash f = false -> basename f = f.
Proof.
  intros Hne Hs. unfold basename. rewrite (splitOn_plain slash f Hs). cbn.
  apply String.eqb_neq in Hne. rewrite Hne. reflexivity.
Qed.

Lemma resolveUnder_plain (segs : list string) (f : string) :
  segs <> [] -> Forall plainSegment segs -> includes slash f = false ->
  resolveUnder (absolutePath segs) f =
  String slash (joinWith slash (normalizeSegments segs [f])).
Proof.
  intros Hne Hsegs Hf. unfold resolveUnder, absolutePath. f_equal. f_equal.
  rewrite append_cons. cbn [splitOn]. rewrite Ascii.eqb_refl.
  rewrite splitOn_append, splitOn_joined, splitOn_append, (splitOn_plain slash f Hf); cycle 1.
  { exact Hne. }
  { eapply Forall_impl; [exact Hsegs|]. intros x (_ & _ & _ & Hx). exact Hx. }
  transitivity (normalizeSegments [] (segs ++ [f] ++ [""])); [reflexivity|].
  rewrite normalizeSegments_app, (normalizeSegments_plain [] segs Hsegs).
  cbn [app]. change [f; ""] with ([f] ++ [""]). rewrite (normalizeSegments_app segs [f] [""]).
  generalize (normalizeSegments segs [f]). intros l. reflexivity.
Qed.

Lemma outside_root (root t : string) :
  String.length t <= String.length root ->
  startsWith (root +:+ String slash EmptyString) t = false.
Proof.
  intros Hlen. destruct (startsWith _ t) eqn:E; [|reflexivity].
  apply startsWith_length in E. rewrite length_append in E. cbn in E. lia.
Qed.

Lemma resolveDocumentPath_simple (segs : list string) (f : string) :
  segs <> [] -> Forall plainSegment segs ->
  resolveDocumentPathOrNull (absolutePath segs) (VStr f) =
  if simpleName f then Some (absolutePath segs +:+ String slash f) else None.
Proof.
  intros Hne Hsegs. unfold resolveDocumentPathOrNull, simpleName.
  destruct (String.eqb f "") eqn:E0; [reflexivity|]. cbn [negb andb].
  destruct (includes slash f) eqn:Es; [reflexivity|].
  destruct (includes backslash f) eqn:Eb; [reflexivity|].
  destruct (includes nul f) eqn:En; [reflexivity|]. cbn [orb negb andb].
  apply String.eqb_neq in E0.
  rewrite (basename_plain f E0 Es), String.eqb_refl. cbn [negb].
  rewrite (resolveUnder_plain segs f Hne Hsegs Es). cbn [normalizeSegments].
  apply String.eqb_neq in E0. rewrite E0. cbn [orb].
  destruct (String.eqb f ".") eqn:E1.
  - cbn [negb]. rewrite outside_root; [reflexivity|]. cbn. lia.
  - destruct (String.eqb f "..") eqn:E2; cbn [negb].
    + rewrite outside_root; [reflexivity|]. unfold absolutePath. cbn [String.length].
      pose proof (joinWith_removelast slash segs). lia.
    + rewrite (joinWith_snoc slash segs f Hne).
      change (String slash (joinWith slash segs +:+ String slash f))
        with (absolutePath segs +:+ String slash f).
      replace (absolutePath segs +:+ String slash f)
        with ((absolutePath segs +:+ String slash EmptyString) +:+ f)
        by (rewrite append_assoc; reflexivity).
      rewrite startsWith_append. reflexivity.
Qed.

Lemma charsAll_excludes (P : ascii -> bool) (c : ascii) (t : string) :
  P c = false -> charsAll P t = true -> includes c t = false.
Proof.
  intros Hc. induction t as [|x t IH]; [reflexivity|]. cbn. intros H.
  apply andb_prop in H as [Hx Ht]. rewrite (IH Ht), orb_false_r.
  destruct (Ascii.eqb_spec x c) as [->|]; [congruence|reflexivity].
Qed.

Lemma includes_append (c : ascii) (a b : string) :
  includes c (a +:+ b) = includes c a || includes c b.
Proof.
  induction a as [|x a IH]; [reflexivity|].
  rewrite append_cons. cbn. rewrite IH, orb_assoc. reflexivity.
Qed.

Lemma removeNul_clean (t : string) : includes nul (removeNul t) = false.
Proof.
  induction t as [|x t IH]; [reflexivity|]. cbn.
  destruct (Ascii.eqb x nul) eqn:E; [exact IH|]. cbn. rewrite E, IH. reflexivity.
Qed.

Lemma removeNul_keeps (c : ascii) (t : string) :
  includes c t = false -> includes c (removeNul t) = false.
Proof.
  induction t as [|x t IH]; [reflexivity|]. cbn. intros H.
  apply orb_false_elim in H as [Hx Ht].
  destruct (Ascii.eqb x nul); [exact (IH Ht)|]. cbn. rewrite Hx, (IH Ht). reflexivity.
Qed.

Lemma replaceSeparators_clean (t : string) :
  includes slash (replaceSeparators t) = false /\
  includes backslash (replaceSeparators t) = false.
Proof.
  induction t as [|x t [IH1 IH2]]; [split; reflexivity|]. cbn. rewrite IH1, IH2.
  destruct (Ascii.eqb x slash) eqn:E1; [split; reflexivity|].
  destruct (Ascii.eqb x backslash) eqn:E2; [split; reflexivity|].
  cbn. rewrite E1, E2. split; reflexivity.
Qed.

Lemma stamped_simple (stamp : string) :
  charsAll isDigit stamp = true -> simpleName ("upload_" +:+ stamp) = true.
Proof.
  intros H. unfold simpleName.
  rewrite !includes_append, !(charsAll_excludes isDigit _ stamp) by (assumption || reflexivity).
  reflexivity.
Qed.

Lemma uploadFilename_simple (originalname stamp : string) :
  charsAll isDigit stamp = true ->
  simpleName (uploadFilename originalname stamp) = true.
Proof.
  intros H. unfold uploadFilename.
  set (safeName := removeNul (replaceSeparators (collapseSpaces false (basename originalname)))).
  destruct (String.eqb safeName "") eqn:E0; [apply stamped_simple, H|].
  destruct (String.eqb safeName ".") eqn:E1; [apply stamped_simple, H|].
  destruct (String.eqb safeName "..") eqn:E2; [apply stamped_simple, H|].
  cbn [orb]. unfold simpleName. rewrite E0, E1, E2.
  destruct (replaceSeparators_clean (collapseSpaces false (basename originalname))) as [Hs Hb].
  unfold safeName.
  rewrite (removeNul_keeps slash _ Hs), (removeNul_keeps backslash _ Hb), removeNul_clean.
  reflexivity.
Qed.

(** X24.  Whatever name a client uploads a document under, the name the
    upload storage gives the file is one [resolveDocumentPathOrNull]
    accepts: the stored document is the child of the documents directory
    with that name, so the serve, rename and delete routes can reach it. *)
Theorem stored_upload_is_addressable (segs : list string) (originalname stamp : string) :
  segs <> [] -> Forall plainSegment segs -> charsAll isDigit stamp = true ->
  resolveDocumentPathOrNull (absolutePath segs) (VStr (uploadFilename originalname stamp)) =
  Some (absolutePath segs +:+ String slash (uploadFilename originalname stamp)).
Proof.
  intros Hne Hsegs Hstamp.
  rewrite (resolveDocumentPath_simple segs _ Hne Hsegs),
    (uploadFilename_simple originalname stamp Hstamp).
  reflexivity.
Qed.

(** X23.  Under a normalised absolute documents directory,
    [resolveDocumentPathOrNull] returns a path exactly for a non-empty
    string without [/], [\] or NUL that is neither [.] nor [..], and that
    path is the directory, a slash, and the name: never the directory
    itself, its parent or anything outside it.  Everything else, a value
    that is not a string included, gives [null]. *)
Theorem document_path_is_a_child (segs : list string) (filename : value) (p : string) :
  segs <> [] -> Forall plainSegment segs ->
  resolveDocumentPathOrNull (absolutePath segs) filename = Some p <->
  exists f, filename = VStr f /\ simpleName f = true /\
            p = absolutePath segs +:+ String slash f.
Proof.
  intros Hne Hsegs. split.
  - destruct filename as [| |b|x|f|l|l]; try discriminate.
    rewrite (resolveDocumentPath_simple segs f Hne Hsegs).
    destruct (simpleName f) eqn:E; [|discriminate].
    intros [= <-]. exists f. repeat split. exact E.
  - intros (f & -> & Hf & ->).
    rewrite (resolveDocumentPath_simple segs f Hne Hsegs), Hf. reflexivity.
Qed.

Lemma collapseSpaces_unspaced (run : bool) (t : string) :
  unspaced t = true -> collapseSpaces run t = t.
Proof.
  unfold unspaced.
  revert run. induction t as [|x t IH]; intros run; [reflexivity|]. cbn. intros H.
  apply andb_prop in H as [Hx Ht]. apply negb_true_iff in Hx. rewrite Hx.
  rewrite (IH false Ht). reflexivity.
Qed.

Lemma replaceSeparators_none (t : string) :
  includes slash t = false -> includes backslash t = false -> replaceSeparators t = t.
Proof.
  induction t as [|x t IH]; [reflexivity|]. cbn. intros H1 H2.
  apply orb_false_elim in H1 as [-> H1]. apply orb_false_elim in H2 as [-> H2].
  cbn. rewrite (IH H1 H2). reflexivity.
Qed.

Lemma removeNul_none (t : string) : includes nul t = false -> removeNul t = t.
Proof.
  induction t as [|x t IH]; [reflexivity|]. cbn. intros H.
  apply orb_false_elim in H as [-> H]. rewrite (IH H). reflexivity.
Qed.

Lemma simpleName_parts (f : string) :
  simpleName f = true ->
  f <> "" /\ includes slash f = false /\ includes backslash f = false /\
  includes nul f = false /\ String.eqb f "." = false /\ String.eqb f ".." = false.
Proof.
  unfold simpleName. intros H.
  repeat (apply andb_prop in H as [H ?]).
  repeat match goal with H : negb _ = true |- _ => apply negb_true_iff in H end.
  apply String.eqb_neq in H. repeat split; assumption.
Qed.

Lemma uploadFilename_unchanged (f stamp : string) :
  simpleName f = true -> unspaced f = true -> uploadFilename f stamp = f.
Proof.
  intros Hf Hw. destruct (simpleName_parts f Hf) as (H0 & Hs & Hb & Hn & H1 & H2).
  unfold uploadFilename.
  rewrite (basename_plain f H0 Hs), (collapseSpaces_unspaced false f Hw),
    (replaceSeparators_none f Hs Hb), (removeNul_none f Hn), H1, H2.
  apply String.eqb_neq in H0. rewrite H0. reflexivity.
Qed.

Lemma collapseSpaces_result (run : bool) (t : string) :
  unspaced (collapseSpaces run t) = true.
Proof.
  unfold unspaced.
  revert run. induction t as [|x t IH]; intros run; [reflexivity|]. cbn.
  destruct (isWhitespace x) eqn:E.
  - destruct run; [apply IH|]. cbn. apply IH.
  - cbn. rewrite E. cbn. apply IH.
Qed.

Lemma replaceSeparators_unspaced (t : string) :
  unspaced t = true -> unspaced (replaceSeparators t) = true.
Proof.
  unfold unspaced.
  induction t as [|x t IH]; [reflexivity|]. cbn. intros H.
  apply andb_prop in H as [Hx Ht]. rewrite (IH Ht), andb_true_r.
  destruct (Ascii.eqb x slash || Ascii.eqb x backslash); [reflexivity|exact Hx].
Qed.

Lemma removeNul_unspaced (t : string) :
  unspaced t = true -> unspaced (removeNul t) = true.
Proof.
  unfold unspaced.
  induction t as [|x t IH]; [reflexivity|]. cbn. intros H.
  apply andb_prop in H as [Hx Ht].
  destruct (Ascii.eqb x nul); [exact (IH Ht)|]. cbn. rewrite Hx. exact (IH Ht).
Qed.

Lemma uploadFilename_unspaced (originalname stamp : string) :
  charsAll isDigit stamp = true -> unspaced (uploadFilename originalname stamp) = true.
Proof.
  intros H. unfold uploadFilename.
  match goal with |- context [if ?b then _ else _] => destruct b end.
  - clear -H. change (unspaced stamp = true). unfold unspaced.
    induction stamp as [|x t IH]; [reflexivity|].
    cbn in H. apply andb_prop in H as [Hx Ht]. cbn [charsAll]. rewrite (IH Ht), andb_true_r.
    revert Hx. clear. destruct x as [[] [] [] [] [] [] [] []]; vm_compute; congruence.
  - apply removeNul_unspaced, replaceSeparators_unspaced, collapseSpaces_result.
Qed.

(** X25.  A name without white space, separators or NUL, other than [.]
    and [..], is stored as it is. *)
Theorem clean_name_is_kept (f stamp : string) :
  simpleName f = true -> unspaced f = true -> uploadFilename f stamp = f.
Proof. exact (uploadFilename_unchanged f stamp). Qed.

(** X26.  Stored names are fixed points of the upload naming: a document
    uploaded again under the name it was stored under keeps that name. *)
Theorem stored_name_is_stable (originalname stamp stamp' : string) :
  charsAll isDigit stamp = true ->
  uploadFilename (uploadFilename originalname stamp) stamp' =
  uploadFilename originalname stamp.
Proof.
  intros H. apply uploadFilename_unchanged.
  - apply uploadFilename_simple, H.
  - apply uploadFilename_unspaced, H.
Qed.

(** *** Configuration *)













End Pipeline.

(** * The properties on the sample data *)

(** C1, as stated, fails. A session file holding one unterminated line is
    tailed: the line is published at once and the offset is the size of
    the file.  And a line of which the first 40 bytes are tailed is never
    published, not even after it has been completed and terminated.  The
    events tailer broadcasts an unterminated event at once, too. *)
Lemma unterminated_line_consumed :
  unterminated spawnText = true /\
  sessionFileOffsets (exec (tail sampleParse sampleEventsFile "f" "main") unflushed) !! "f"
  = Some (String.length spawnText) /\
  received 1 (trace (exec (tail sampleParse sampleEventsFile "f" "main") unflushed))
  = [liveMessage spawnEvent] /\
  sessionFileOffsets (exec (tail sampleParse sampleEventsFile "f" "main") halfWritten) !! "f"
  = Some 40 /\
  received 1 (trace (exec (tail sampleParse sampleEventsFile "f" "main")
                       (withFiles {[ "f" := spawnText +:+ nl ]}
                          (exec (tail sampleParse sampleEventsFile "f" "main") halfWritten))))
  = [] /\
  lastEventSize (exec (tailEvents sampleParse sampleEventsFile) unflushedEvents) = 1 /\
  received 1 (trace (exec (tailEvents sampleParse sampleEventsFile) unflushedEvents))
  = [object [("type", VStr "antfarm_event"); ("data", VNum 1)]].
Proof. vm_compute. repeat split. Qed.

Lemma tail_takes_unterminated_line_witness :
  sessionFileOffsets (exec (tail sampleParse sampleEventsFile "f" "main") unflushed) !! "f"
  = Some (String.length ("" +:+ "" +:+ spawnText)).
Proof.
  destruct (tail_takes_unterminated_line sampleParse sampleEventsFile
              "f" "main" "" "" spawnText unflushed) as (_ & H & _).
  - reflexivity.
  - reflexivity.
  - reflexivity.
  - left. reflexivity.
  - vm_compute. reflexivity.
  - vm_compute. reflexivity.
  - exact H.
Defined.



(** C3, as stated, fails. After 31 publishes (31 <= 200) a new socket is
    sent 30 backfill messages, those of the last 30 events: the first
    event is missing. *)
Lemma backfill_stops_at_30 :
  List.length (sampleEvents 31) = 31 /\
  received 7 (trace (exec (accept sampleParse sampleEventsFile 7)
                       (exec (publishAll (sampleEvents 31)) (started ∅ []))))
  = map backfillMessage (drop 1 (sampleEvents 31)) ++ [completeMessage] /\
  received 7 (trace (exec (accept sampleParse sampleEventsFile 7)
                       (exec (publishAll (sampleEvents 31)) (started ∅ []))))
  <> map backfillMessage (sampleEvents 31) ++ [completeMessage].
Proof.
  split; [reflexivity|]. split; [vm_compute; reflexivity|].
  intros H. apply (f_equal (@List.length value)) in H. vm_compute in H. discriminate.
Qed.

Lemma backfill_then_live_witness :
  received 7 (trace (exec (publishAll (sampleEvents 2))
                       (exec (accept sampleParse sampleEventsFile 7)
                          (exec (publishAll (sampleEvents 3)) (started ∅ [viewer])))))
  = received 7 (trace (started ∅ [viewer]))
    ++ eventsBackfill sampleParse sampleEventsFile (files (started ∅ [viewer]))
    ++ map backfillMessage (sliceLast 30 (sampleEvents 3))
    ++ [completeMessage]
    ++ map liveMessage (sampleEvents 2).
Proof.
  apply backfill_then_live.
  - repeat constructor.
  - repeat constructor.
  - reflexivity.
  - reflexivity.
  - repeat constructor. vm_compute. lia.
Defined.

Lemma replay_buffer_bounded_witness :
  map (fun c => prop c "details")
    (replay (commsFile (exec (publishAll (sampleEvents 3)) (started ∅ []))))
  = sliceLast 200 (sampleEvents 3).
Proof.
  destruct (replay_buffer_bounded (sampleEvents 3) (started ∅ [])) as (_ & _ & H & _).
  - repeat constructor.
  - reflexivity.
  - reflexivity.
  - exact H.
Defined.

(** C5, as stated, fails. One publish with an open and a closing socket
    connected: the send to the open socket comes first, the read and the
    write of the replay file after it. *)
Lemma publish_sends_before_writing :
  trace (exec (broadcastA2AEvent spawnEvent) (started ∅ [viewer; sleeper]))
  = [Sent 1 (liveMessage spawnEvent); CommsRead;
     CommsWrite (VArr [entryOf spawnEvent]) true] /\
  persistsBeforeDelivering
    (trace (exec (broadcastA2AEvent spawnEvent) (started ∅ [viewer; sleeper]))) = false.
Proof. vm_compute. split; reflexivity. Qed.

Lemma publish_delivers_then_persists_witness :
  exec (broadcastA2AEvent spawnEvent) (started ∅ [viewer; sleeper])
  = afterPublish spawnEvent [] (started ∅ [viewer; sleeper]).
Proof.
  destruct (publish_delivers_then_persists spawnEvent [] (started ∅ [viewer; sleeper]))
    as (_ & H & _).
  - reflexivity.
  - reflexivity.
  - exact H.
Defined.

Lemma toolResult_classification_witness :
  prop (toolResultEvent sendFailure (prop sendFailure "message") "ops") "event"
  = VStr "agent.error" /\
  prop (toolResultEvent sendFailure (prop sendFailure "message") "ops") "error"
  = orElse (prop (detailsOf (prop sendFailure "message")) "error") (VStr "unknown error").
Proof.
  destruct (toolResult_classification sendFailure (prop sendFailure "message") "ops"
              (started ∅ [])) as (_ & H & _).
  - reflexivity.
  - reflexivity.
  - reflexivity.
  - right. reflexivity.
  - apply H. right. reflexivity.
Defined.



Lemma malformed_line_skipped_witness :
  tail sampleParse sampleEventsFile "f" "main" garbledLine
  = forEach (sessionLine sampleParse "main")
      (List.filter (parses sampleParse)
         (linesOf (readRange (default 0 (sessionFileOffsets garbledLine !! "f"))
                     (String.length ("{oops" +:+ nl +:+ spawnText +:+ nl))
                     ("{oops" +:+ nl +:+ spawnText +:+ nl))))
      (withSessionFileOffsets
         (<["f" := String.length ("{oops" +:+ nl +:+ spawnText +:+ nl)]>
            (sessionFileOffsets garbledLine)) garbledLine).
Proof.
  destruct (malformed_line_skipped sampleParse sampleEventsFile
              "f" "main" ("{oops" +:+ nl +:+ spawnText +:+ nl) garbledLine) as (_ & H & _).
  - reflexivity.
  - reflexivity.
  - vm_compute. lia.
  - exact H.
Defined.

Lemma publish_survives_unreadable_replay_witness :
  commsFile (exec (broadcastA2AEvent spawnEvent) (started ∅ [viewer]))
  = Holds (VArr [entryOf spawnEvent]).
Proof.
  destruct (publish_survives_unreadable_replay spawnEvent (started ∅ [viewer]))
    as (_ & _ & H).
  - reflexivity.
  - left. reflexivity.
  - apply H. reflexivity.
Defined.

(** ** The further properties on the sample data *)

Lemma spawn_request_event_witness :
  exists ev,
    toolCall spawnRecord "main" spawnBlock (started ∅ [viewer])
    = broadcastA2AEvent ev (started ∅ [viewer]) /\
    prop ev "event" = VStr "agent.spawn" /\
    prop ev "task" = VStr "build report".
Proof.
  destruct (spawn_request_event spawnRecord spawnBlock "main" "build report"
              (started ∅ [viewer])) as (ev & H1 & H2 & _ & _ & _ & _ & _ & H3).
  - reflexivity.
  - reflexivity.
  - reflexivity.
  - exists ev. split; [exact H1|]. split; [exact H2|]. apply H3. vm_compute. lia.
Defined.

Lemma send_request_event_witness :
  exists ev,
    toolCall spawnRecord "main" sendBlock (started ∅ [viewer])
    = broadcastA2AEvent ev (started ∅ [viewer]) /\
    prop ev "event" = VStr "agent.send" /\
    prop ev "message" = VStr (String.substring 0 200 "status?").
Proof.
  destruct (send_request_event spawnRecord sendBlock "main" "status?"
              (started ∅ [viewer])) as (ev & H1 & H2 & _ & _ & _ & H3 & _).
  - reflexivity.
  - reflexivity.
  - reflexivity.
  - exists ev. split; [exact H1|]. split; [exact H2|exact H3].
Defined.

Lemma unrecognised_record_ignored_witness :
  processSessionLine (VObj [("type", VStr "summary")]) "main" (started ∅ [viewer])
  = (Ok tt, started ∅ [viewer]).
Proof.
  apply unrecognised_record_ignored.
  - reflexivity.
  - left. discriminate.
Defined.

Lemma rejected_block_drops_rest_witness :
  sessionLine brokenParse "main" brokenText (started ∅ [viewer])
  = (Ok tt, exec (forEach (toolCall brokenRecord "main") [spawnBlock]) (started ∅ [viewer])).
Proof.
  destruct (rejected_block_drops_rest brokenParse brokenText brokenRecord VNull
              [spawnBlock] [spawnBlock] "main" (started ∅ [viewer])) as [_ H].
  - vm_compute. reflexivity.
  - reflexivity.
  - reflexivity.
  - reflexivity.
  - reflexivity.
  - exact H.
Defined.

Lemma tailed_events_attributed_witness :
  exists t,
    trace (exec (tail sampleParse sampleEventsFile "f" "main") unflushed)
    = trace unflushed ++ t /\
    Forall (attributed "main") t.
Proof. apply tailed_events_attributed. reflexivity. Defined.


Lemma tails_follow_appends_witness :
  forEach (fun chunk s' =>
             tail sampleParse sampleEventsFile "f" "main" (writerAppends "f" chunk s'))
    [spawnText +:+ nl] caughtUp
  = (Ok tt,
     relocate (<["f" := (spawnText +:+ nl) +:+ joined [spawnText +:+ nl]]> (files caughtUp))
       (<["f" := String.length ((spawnText +:+ nl) +:+ joined [spawnText +:+ nl])]>
          (sessionFileOffsets caughtUp))
       (exec (forEach (sessionLine sampleParse "main")
                (linesOf (joined [spawnText +:+ nl]))) caughtUp)).
Proof.
  apply tails_follow_appends.
  - reflexivity.
  - reflexivity.
  - reflexivity.
  - constructor; [|constructor]. right. exists spawnText. reflexivity.
Defined.

Lemma events_tail_broadcasts_witness :
  lastEventSize (exec (tailEvents sampleParse sampleEventsFile) unflushedEvents)
  = String.length "1".
Proof.
  destruct (events_tail_broadcasts sampleParse sampleEventsFile "1" unflushedEvents)
    as (_ & _ & H).
  - reflexivity.
  - reflexivity.
  - vm_compute. lia.
  - exact H.
Defined.

Lemma events_tail_skips_history_witness :
  (startEventTail sampleEventsFile >> tailEvents sampleParse sampleEventsFile)
    (started {[ sampleEventsFile := "1" +:+ nl ]} [viewer])
  = (Ok tt, withLastEventSize (String.length ("1" +:+ nl))
              (started {[ sampleEventsFile := "1" +:+ nl ]} [viewer])).
Proof.
  destruct (events_tail_skips_history sampleParse sampleEventsFile ("1" +:+ nl) ("1" +:+ nl)
              (started {[ sampleEventsFile := "1" +:+ nl ]} [viewer])) as [H _].
  - reflexivity.
  - reflexivity.
  - discriminate.
  - exact H.
Defined.

Lemma events_file_created_later_witness :
  tailEvents sampleParse sampleEventsFile (started ∅ [viewer])
  = (Ok tt, withLastEventSize 0 (started ∅ [viewer])).
Proof.
  destruct (events_file_created_later sampleParse sampleEventsFile ("1" +:+ nl)
              (started ∅ [viewer])) as (_ & H & _).
  - reflexivity.
  - reflexivity.
  - discriminate.
  - exact H.
Defined.

Lemma poll_skips_broken_index_witness :
  forEach (pollAgent sampleParse sampleAgentsBase) (["main"] ++ "ops" :: ["comms"])
    (polled "7")
  = forEach (pollAgent sampleParse sampleAgentsBase) (["main"] ++ ["comms"]) (polled "7").
Proof.
  destruct (poll_skips_broken_index sampleParse sampleAgentsBase ["main"] ["comms"] "ops"
              (polled "7")) as [_ H].
  - left. reflexivity.
  - exact H.
Defined.

Lemma poll_unchanged_is_idle_witness :
  pollAgent sampleParse sampleAgentsBase "main" (polled "0") = (Ok tt, polled "0").
Proof.
  destruct (poll_unchanged_is_idle sampleParse sampleAgentsBase "main" (indexText "0")
              (indexValue 0) {[ "k" := VNum 5 ]} (polled "0")) as [H _].
  - reflexivity.
  - reflexivity.
  - repeat constructor.
  - reflexivity.
  - repeat constructor.
  - exact H.
Defined.

Lemma repeated_poll_is_idle_witness :
  (pollAgent sampleParse sampleAgentsBase "main" >> pollAgent sampleParse sampleAgentsBase "main")
    (started {[ sampleIndexPath := indexText "7"; "f" := spawnText +:+ nl ]} [viewer])
  = pollAgent sampleParse sampleAgentsBase "main"
      (started {[ sampleIndexPath := indexText "7"; "f" := spawnText +:+ nl ]} [viewer]).
Proof.
  apply (repeated_poll_is_idle sampleParse sampleAgentsBase "main" (indexText "7")
           (indexValue 7)).
  - reflexivity.
  - reflexivity.
  - repeat constructor.
  - repeat constructor.
  - cbn. apply NoDup_singleton.
  - reflexivity.
Defined.


Lemma post_rejects_incomplete_witness :
  postAgentComms (VObj [("from", VStr "ops")]) sampleNow (started ∅ [viewer])
  = (Ok (Json 400 (object [("error", VStr "Missing required fields")])),
     started ∅ [viewer]).
Proof.
  apply post_rejects_incomplete.
  - reflexivity.
  - right. left. reflexivity.
Defined.

Lemma post_appends_entry_witness :
  commsFile (exec (postAgentComms samplePost sampleNow) (started ∅ [viewer]))
  = Holds (VArr (sliceLast 200 ([] ++ [postedEntry samplePost sampleNow]))).
Proof.
  destruct (post_appends_entry samplePost sampleNow [] (started ∅ [viewer]))
    as (_ & H & _).
  - reflexivity.
  - reflexivity.
  - reflexivity.
  - reflexivity.
  - reflexivity.
  - reflexivity.
  - exact H.
Defined.

Lemma post_fails_loudly_witness :
  result (postAgentComms samplePost sampleNow) foreignReplay = Ok (Failed 500).
Proof.
  destruct (post_fails_loudly samplePost sampleNow foreignReplay) as [H _].
  - reflexivity.
  - reflexivity.
  - reflexivity.
  - reflexivity.
  - left. reflexivity.
  - exact H.
Defined.

Lemma post_then_get_witness :
  result getAgentComms (exec (postAgentComms samplePost sampleNow) (started ∅ [viewer]))
  = Ok (Json 200 (object [("communications",
                           VArr (postedEntry samplePost sampleNow :: rev (sliceLast 49 [])))])).
Proof.
  apply post_then_get.
  - reflexivity.
  - reflexivity.
  - reflexivity.
  - reflexivity.
  - reflexivity.
  - reflexivity.
Defined.

Lemma published_events_listed_witness :
  result getAgentComms (exec (publishAll (sampleEvents 3)) (started ∅ []))
  = Ok (Json 200 (object [("communications",
                           VArr (map entryOf (rev (sliceLast 50 (sampleEvents 3)))))])).
Proof.
  destruct (published_events_listed (sampleEvents 3) (started ∅ [])) as [H _].
  - repeat constructor.
  - reflexivity.
  - reflexivity.
  - exact H.
Defined.

Lemma posted_entry_is_backfilled_witness :
  received 7 (trace (exec (accept sampleParse sampleEventsFile 7)
                       (exec (postAgentComms samplePost sampleNow) (started ∅ [viewer]))))
  = received 7 (trace (started ∅ [viewer]))
    ++ eventsBackfill sampleParse sampleEventsFile (files (started ∅ [viewer]))
    ++ map commsMessage (sliceLast 29 [])
    ++ [commsMessage (postedEntry samplePost sampleNow); completeMessage].
Proof.
  destruct (posted_entry_is_backfilled sampleParse sampleEventsFile 7 samplePost sampleNow []
              (started ∅ [viewer])) as [H _].
  - reflexivity.
  - reflexivity.
  - reflexivity.
  - reflexivity.
  - reflexivity.
  - reflexivity.
  - constructor.
  - exact H.
Defined.

Lemma document_path_is_a_child_witness :
  resolveDocumentPathOrNull (absolutePath sampleDocsRoot) (VStr "report.pdf")
  = Some (absolutePath sampleDocsRoot +:+ String slash "report.pdf").
Proof.
  apply (document_path_is_a_child sampleDocsRoot).
  - discriminate.
  - repeat constructor; discriminate.
  - exists "report.pdf". repeat split.
Defined.

Lemma stored_upload_is_addressable_witness :
  resolveDocumentPathOrNull (absolutePath sampleDocsRoot)
    (VStr (uploadFilename "my  report.pdf" "17"))
  = Some (absolutePath sampleDocsRoot +:+ String slash (uploadFilename "my  report.pdf" "17")).
Proof.
  apply stored_upload_is_addressable.
  - discriminate.
  - repeat constructor; discriminate.
  - reflexivity.
Defined.

Lemma clean_name_is_kept_witness : uploadFilename "report.pdf" "17" = "report.pdf".
Proof. apply clean_name_is_kept; reflexivity. Defined.

Lemma stored_name_is_stable_witness :
  uploadFilename (uploadFilename ".." "17") "18" = uploadFilename ".." "17".
Proof. apply stored_name_is_stable. reflexivity. Defined.


